(** * galpy: potential fields, planar orbits and the SCF basis expansion

    A shallow embedding of three source files of galpy,

    - [galpy/orbit_src/planarOrbit.py]      (module [planarOrbit]),
    - [galpy/potential_src/Potential.py]    (module [Potential]),
    - [galpy/potential_src/SCFPotential.py] (module [SCFPotential]),

    together with the properties the specification states about them.

    Modelling conventions.

    - Floats are modelled by the real numbers [R]: [x**2.] is [x ^ 2],
      [nu.sqrt] is [sqrt], [nu.fabs] and [math.fabs] are [Rabs], [nu.cos] and
      [nu.sin] are [cos] and [sin].  The reals do not round and have no nan
      and no infinity; what is stated over them names the expressions of
      the code, and [nu.sqrt] is meant on arguments that are not negative.
      Where a statement of the specification depends on rounding, the code
      is embedded once more over an arbitrary arithmetic ([Arith.ops],
      module [Generic]) and run in binary64.
    - The quotient of two Python floats raises [ZeroDivisionError] at a
      zero divisor ([truediv]); a quotient that involves a numpy float or
      array does not raise.  Arguments and the values of the methods of a
      potential are Python floats; the rows of a trajectory and the states
      the ODE primitive hands to a right-hand side are numpy arrays.
    - A Python call that can raise returns a [result]; the exception classes
      the sources raise or catch are the constructors of [exn].
    - Attributes tested with [hasattr], and methods a subclass may or may not
      define, are [option]-valued record fields.
    - Functions of galpy or scipy that the three files import but do not
      define ([odeint], [brentq], [lpmn], [evaluateplanarRforces], ...) are
      [Variable]s of the section that uses them.
    - The decorators [potential_physical_input] and [physical_conversion]
      belong to the unit-conversion layer, which is not among the three
      files; the embedding is of the functions they wrap. *)

From Stdlib Require Import PrimFloat.
From Stdlib Require Import String Ascii Reals Lra Lia ZArith Bool Permutation List.
Import ListNotations.
Open Scope R_scope.

(** Python floats. *)
Abbreviation float := R (only parsing).

(** ** Python exceptions and results *)

Inductive exn : Type :=
| AttributeError (msg : string)
| PotentialError (msg : string)
| NotImplementedError (msg : string)
| ValueError (msg : string)
| TypeError (msg : string)
| IndexError (msg : string)
| IOError (msg : string)
| RuntimeError (msg : string)
| ZeroDivisionError (msg : string).

Inductive result (A : Type) : Type :=
| Ok (a : A)
| Raise (e : exn).

Arguments Ok {A} a.
Arguments Raise {A} e.

Definition bind {A B : Type} (m : result A) (k : A -> result B) : result B :=
  match m with
  | Ok a => k a
  | Raise e => Raise e
  end.

Notation "x <- m ;; k" := (bind m (fun x => k))
  (at level 61, m at next level, right associativity).

(** The returned value of a method that also updates [self]. *)
Definition value {A B : Type} (r : result (A * B)) : result A :=
  match r with
  | Ok p => Ok (fst p)
  | Raise e => Raise e
  end.

(** [x / y] on two Python floats: a zero divisor raises.  On numpy floats
    and arrays the quotient is returned without an exception, and is
    written [x / y]. *)
Definition msg_div : string := "float division by zero".

Definition truediv (x y : float) : result float :=
  if Req_dec_T y 0 then Raise (ZeroDivisionError msg_div) else Ok (x / y).

(** ** The arithmetic of floats

    The operations on floats that the sources use, as a structure.  The
    real numbers are one instance, in which most of this file works; the
    binary64 floats of the machine, which round every result to nearest,
    are another.  What is proved for every such structure holds of the
    code whatever the rounding. *)

Module Arith.

Record ops (num : Type) : Type := mkOps {
  zero : num;
  add : num -> num -> num;
  sub : num -> num -> num;
  mul : num -> num -> num;
  div : num -> num -> num
}.

Arguments mkOps {num}.
Arguments zero {num}.
Arguments add {num}.
Arguments sub {num}.
Arguments mul {num}.
Arguments div {num}.

Definition real : ops float := mkOps 0 Rplus Rminus Rmult Rdiv.

Definition binary64 : ops PrimFloat.float :=
  mkOps 0%float PrimFloat.add PrimFloat.sub PrimFloat.mul PrimFloat.div.

End Arith.

(** ** A fragment of numpy on one- and two-dimensional float arrays *)

Module nu.

(** [a[i]] on a one-dimensional array. *)
Definition getitem {A : Type} (a : list A) (i : nat) : result A :=
  match nth_error a i with
  | Some x => Ok x
  | None => Raise (IndexError "index out of bounds")
  end.

(** [A[:,j]] on a two-dimensional array held as a list of rows. *)
Fixpoint col {T : Type} (j : nat) (A : list (list T)) : result (list T) :=
  match A with
  | [] => Ok []
  | row :: rest =>
      x <- getitem row j ;;
      xs <- col j rest ;;
      Ok (x :: xs)
  end.

(** The value a slice assignment [out[:,j]= v] writes into a column of
    [n] entries: [v] itself when it has [n] entries, its single entry
    repeated when it has one, a broadcasting error otherwise. *)
Definition broadcast_to {A : Type} (n : nat) (v : list A) : result (list A) :=
  if Nat.eqb (length v) n then Ok v
  else match v with
       | [x] => Ok (repeat x n)
       | _ => Raise (ValueError "could not broadcast input array")
       end.

(** [nu.amax] and [nu.amin] of a one-dimensional array; numpy refuses the
    empty array. *)
Definition amax (a : list float) : result float :=
  match a with
  | [] => Raise (ValueError "zero-size array to reduction operation maximum")
  | x :: xs => Ok (fold_left Rmax xs x)
  end.

Definition amin (a : list float) : result float :=
  match a with
  | [] => Raise (ValueError "zero-size array to reduction operation minimum")
  | x :: xs => Ok (fold_left Rmin xs x)
  end.

(** [nu.sum] of a one-dimensional array. *)
Definition sum (a : list float) : float := fold_left Rplus a 0.

End nu.

(** Rows [[a_i, b_i, c_i]] of three columns of equal length. *)
Fixpoint rows3 {A : Type} (a b c : list A) : list (list A) :=
  match a, b, c with
  | x :: a', y :: b', z :: c' => [x; y; z] :: rows3 a' b' c'
  | _, _, _ => []
  end.

(** Rows [[a_i, b_i, c_i, d_i]] of four columns of equal length. *)
Fixpoint rows4 {A : Type} (a b c d : list A) : list (list A) :=
  match a, b, c, d with
  | x :: a', y :: b', z :: c', w :: d' => [x; y; z; w] :: rows4 a' b' c' d'
  | _, _, _, _ => []
  end.

(** ** planarOrbit.py *)

Module planarOrbit.

(** The attributes of an orbit object; [t], [orbit] and [rs] exist only
    once they have been assigned. *)
Record planarOrbitTop : Type := mkOrbit {
  vxvv : list float;
  t : option (list float);
  orbit : option (list (list float));
  rs : option (list float)
}.

Definition set_rs (self : planarOrbitTop) (v : list float) : planarOrbitTop :=
  mkOrbit (vxvv self) (t self) (orbit self) (Some v).

(** [self.orbit[:,0]**2.] *)
Definition col0_squared (orb : list (list float)) : result (list float) :=
  c <- nu.col 0 orb ;; Ok (map (fun x => x ^ 2) c).

(** The shared prologue of [e], [rap] and [rperi]: the orbit must exist,
    and [self.rs] is filled on first use. *)
Definition ensure_rs (self : planarOrbitTop) : result (list float * planarOrbitTop) :=
  match orbit self with
  | None => Raise (AttributeError "Integrate the orbit first")
  | Some orb =>
      match rs self with
      | Some v => Ok (v, self)
      | None => v <- col0_squared orb ;; Ok (v, set_rs self v)
      end
  end.

(** [planarOrbitTop.e] *)
Definition e (self : planarOrbitTop) : result (float * planarOrbitTop) :=
  p <- ensure_rs self ;;
  mx <- nu.amax (fst p) ;;
  mn <- nu.amin (fst p) ;;
  Ok ((mx - mn) / (mx + mn), snd p).

(** [planarOrbitTop.rap] *)
Definition rap (self : planarOrbitTop) : result (float * planarOrbitTop) :=
  p <- ensure_rs self ;;
  mx <- nu.amax (fst p) ;;
  Ok (mx, snd p).

(** [planarOrbitTop.rperi] *)
Definition rperi (self : planarOrbitTop) : result (float * planarOrbitTop) :=
  p <- ensure_rs self ;;
  mn <- nu.amin (fst p) ;;
  Ok (mn, snd p).

(** [planarOrbit.e], the override of the full planar orbit: the same
    quotient, with a local [rs] that is not stored. *)
Definition planarOrbit_e (self : planarOrbitTop) : result float :=
  match orbit self with
  | None => Raise (AttributeError "Integrate the orbit first")
  | Some orb =>
      v <- col0_squared orb ;;
      mx <- nu.amax v ;;
      mn <- nu.amin v ;;
      Ok ((mx - mn) / (mx + mn))
  end.

(** The sampled radii of an integrated orbit, its first column, and the
    largest and smallest of them: the quantities the specification calls
    [r_max] and [r_min]. *)
Definition sampled_radii (self : planarOrbitTop) : result (list float) :=
  match orbit self with
  | None => Raise (AttributeError "Integrate the orbit first")
  | Some orb => nu.col 0 orb
  end.

Definition r_max (self : planarOrbitTop) : result float :=
  c <- sampled_radii self ;; nu.amax c.

Definition r_min (self : planarOrbitTop) : result float :=
  c <- sampled_radii self ;; nu.amin c.

Section Integration.

(** Planar potentials and the functions of [planarPotential.py] and of
    scipy that this file imports. *)
Variable Potential3D : Type.
Variable planarPotential : Type.
Variable RZToplanarPotential : Potential3D -> planarPotential.
(** [evaluateplanarRforces(R,pot,phi=None,t=0.)] *)
Variable evaluateplanarRforces : float -> planarPotential -> option float -> float -> float.
(** [evaluateplanarphiforces(R,pot,phi=None,t=0.)] *)
Variable evaluateplanarphiforces : float -> planarPotential -> option float -> float -> float.
(** [integrate.odeint(func,y0,t,rtol=...)], with [args] already applied
    to [func]: one state row per requested time. *)
Variable odeint : (list float -> float -> list float) -> list float -> list float -> float -> list (list float).

(** [y[i]] on the state array the integrator hands to the right-hand
    side; it has the length of the initial state. *)
Definition at_ (y : list float) (i : nat) : float := nth i y 0.

(** [_REOM(y,t,pot,l2)] *)
Definition _REOM (y : list float) (t : float) (pot : planarPotential) (l2 : float) : list float :=
  [ at_ y 1;
    l2 / at_ y 0 ^ 3 + evaluateplanarRforces (at_ y 0) pot None t ].

(** [_EOM(y,t,pot)] *)
Definition _EOM (y : list float) (t : float) (pot : planarPotential) : list float :=
  let l2 := (at_ y 0 ^ 2 * at_ y 3) ^ 2 in
  [ at_ y 1;
    l2 / at_ y 0 ^ 3 + evaluateplanarRforces (at_ y 0) pot (Some (at_ y 2)) t;
    at_ y 3;
    1 / at_ y 0 ^ 2 *
      (evaluateplanarphiforces (at_ y 0) pot (Some (at_ y 2)) t
       - 2 * at_ y 0 * at_ y 1 * at_ y 3) ].

(** [rtol=10.**-8.] *)
Definition rtol : float := / 10 ^ 8.

(** [_integrateROrbit(vxvv,pot,t)] *)
Definition _integrateROrbit (vxvv : list float) (pot : planarPotential) (t : list float)
  : result (list (list float)) :=
  v0 <- nu.getitem vxvv 0 ;;
  v2 <- nu.getitem vxvv 2 ;;
  let l := v0 * v2 in
  let l2 := l ^ 2 in
  v1 <- nu.getitem vxvv 1 ;;
  let init := [v0; v1] in
  let intOut := odeint (fun y s => _REOM y s pot l2) init t rtol in
  c0 <- nu.col 0 intOut ;;
  out0 <- nu.broadcast_to (length t) c0 ;;
  c1 <- nu.col 1 intOut ;;
  out1 <- nu.broadcast_to (length t) c1 ;;
  let out2 := map (fun r => l / r) out0 in
  Ok (rows3 out0 out1 out2).

(** [_integrateOrbit(vxvv,pot,t)]; [vxvv] is a list of Python floats, so
    that [vxvv[2]/vxvv[0]] raises at [vxvv[0] = 0]. *)
Definition _integrateOrbit (vxvv : list float) (pot : planarPotential) (t : list float)
  : result (list (list float)) :=
  v2 <- nu.getitem vxvv 2 ;;
  v0 <- nu.getitem vxvv 0 ;;
  vphi <- truediv v2 v0 ;;
  v1 <- nu.getitem vxvv 1 ;;
  v3 <- nu.getitem vxvv 3 ;;
  let init := [v0; v1; v3; vphi] in
  let intOut := odeint (fun y s => _EOM y s pot) init t rtol in
  c0 <- nu.col 0 intOut ;;
  out0 <- nu.broadcast_to (length t) c0 ;;
  c1 <- nu.col 1 intOut ;;
  out1 <- nu.broadcast_to (length t) c1 ;;
  c2 <- nu.col 2 intOut ;;
  out3 <- nu.broadcast_to (length t) c2 ;;
  c3 <- nu.col 3 intOut ;;
  w <- nu.broadcast_to (length t) c3 ;;
  let out2 := map (fun p => fst p * snd p) (combine out0 w) in
  Ok (rows4 out0 out1 out2 out3).

(** [planarROrbit.integrate(t,pot)] *)
Definition planarROrbit_integrate (self : planarOrbitTop) (ts : list float)
  (pot : Potential3D) : result planarOrbitTop :=
  let thispot := RZToplanarPotential pot in
  out <- _integrateROrbit (vxvv self) thispot ts ;;
  Ok (mkOrbit (vxvv self) (Some ts) (Some out) (rs self)).

(** [planarOrbit.integrate(t,pot)]; [pot] is either an instance of
    [Potential], which is projected to the plane, or anything else,
    which is used as it is. *)
Definition planarOrbit_integrate (self : planarOrbitTop) (ts : list float)
  (pot : Potential3D + planarPotential) : result planarOrbitTop :=
  let thispot := match pot with
                 | inl p => RZToplanarPotential p
                 | inr q => q
                 end in
  out <- _integrateOrbit (vxvv self) thispot ts ;;
  Ok (mkOrbit (vxvv self) (Some ts) (Some out) (rs self)).

(** The contract of the ODE primitive on an output: one row per
    requested time, each with as many entries as the state. *)
Definition well_shaped (n k : nat) (A : list (list float)) : Prop :=
  length A = n /\ Forall (fun row => length row = k) A.

End Integration.

End planarOrbit.

(** ** Potential.py *)

Module Potential.

(** A raw method [_f(self,R,z,phi=0.,t=0.)] of a concrete potential. *)
Definition raw : Type := float -> float -> option float -> float -> float.

(** An instance of (a subclass of) [Potential].  The attributes are those
    [__init__] sets; a raw method is [None] when the subclass does not
    define it, which is when looking it up raises [AttributeError].  The
    structural parameters of a subclass live in the closures of its raw
    methods.  [_evaluate] may return Python's [None]. *)
Record Potential : Type := mkPotential {
  _amp : float;
  dim : Z;
  isRZ : bool;
  isNonAxi : bool;
  hasC : bool;
  hasC_dxdv : bool;
  _ro : float;
  _roSet : bool;
  _vo : float;
  _voSet : bool;
  _evaluate : option (float -> float -> option float -> float -> option float);
  _Rforce : option raw;
  _zforce : option raw;
  _phiforce : option raw;
  _R2deriv : option raw;
  _z2deriv : option raw;
  _Rzderiv : option raw;
  _phi2deriv : option raw;
  _Rphideriv : option raw;
  _dens : option raw
}.

(** The in-place update [self._amp= a]. *)
Definition set_amp (self : Potential) (a : float) : Potential :=
  mkPotential a (dim self) (isRZ self) (isNonAxi self) (hasC self)
    (hasC_dxdv self) (_ro self) (_roSet self) (_vo self) (_voSet self)
    (_evaluate self) (_Rforce self) (_zforce self) (_phiforce self)
    (_R2deriv self) (_z2deriv self) (_Rzderiv self) (_phi2deriv self)
    (_Rphideriv self) (_dens self).

Definition msg_Rforce : string :=
  "'_Rforce' function not implemented for this potential".
Definition msg_zforce : string :=
  "'_zforce' function not implemented for this potential".
Definition msg_evaluate : string :=
  "'_evaluate' function not implemented for this potential".
Definition msg_R2deriv : string :=
  "'_R2deriv' function not implemented for this potential".
Definition msg_z2deriv : string :=
  "'_z2deriv' function not implemented for this potential".
Definition msg_Rzderiv : string :=
  "'_Rzderiv' function not implemented for this potential".
Definition msg_phiforce_nonaxi : string :=
  "'_phiforce' function not implemented for this non-axisymmetric potential".
Definition msg_higher_order : string :=
  "Higher-order derivatives not implemented for this potential".
Definition msg_no_phi : string :=
  "The (list of) Potential instances is non-axisymmetric, but you did not provide phi".
Definition msg_add_None : string :=
  "unsupported operand type(s) for +=: 'float' and 'NoneType'".

(** [Potential._Rforce_nodecorator], and [Potential.Rforce] under
    [use_physical=False]. *)
Definition _Rforce_nodecorator (self : Potential) (R z : float) (phi : option float) (t : float)
  : result float :=
  match _Rforce self with
  | Some f => Ok (_amp self * f R z phi t)
  | None => Raise (PotentialError msg_Rforce)
  end.

Definition Rforce := _Rforce_nodecorator.

(** [Potential._zforce_nodecorator] and [Potential.zforce]. *)
Definition _zforce_nodecorator (self : Potential) (R z : float) (phi : option float) (t : float)
  : result float :=
  match _zforce self with
  | Some f => Ok (_amp self * f R z phi t)
  | None => Raise (PotentialError msg_zforce)
  end.

Definition zforce := _zforce_nodecorator.

(** [Potential.R2deriv] *)
Definition R2deriv (self : Potential) (R Z : float) (phi : option float) (t : float) : result float :=
  match _R2deriv self with
  | Some f => Ok (_amp self * f R Z phi t)
  | None => Raise (PotentialError msg_R2deriv)
  end.

(** [Potential.z2deriv] *)
Definition z2deriv (self : Potential) (R Z : float) (phi : option float) (t : float) : result float :=
  match _z2deriv self with
  | Some f => Ok (_amp self * f R Z phi t)
  | None => Raise (PotentialError msg_z2deriv)
  end.

(** [Potential.Rzderiv] *)
Definition Rzderiv (self : Potential) (R Z : float) (phi : option float) (t : float) : result float :=
  match _Rzderiv self with
  | Some f => Ok (_amp self * f R Z phi t)
  | None => Raise (PotentialError msg_Rzderiv)
  end.

(** [Potential._phiforce_nodecorator] and [Potential.phiforce]. *)
Definition _phiforce_nodecorator (self : Potential) (R z : float) (phi : option float) (t : float)
  : result float :=
  match _phiforce self with
  | Some f => Ok (_amp self * f R z phi t)
  | None =>
      if isNonAxi self then Raise (PotentialError msg_phiforce_nonaxi)
      else Ok 0
  end.

Definition phiforce := _phiforce_nodecorator.

(** [Potential.phi2deriv] *)
Definition phi2deriv (self : Potential) (R Z : float) (phi : option float) (t : float) : result float :=
  match _phi2deriv self with
  | Some f => Ok (_amp self * f R Z phi t)
  | None =>
      if isNonAxi self then Raise (PotentialError msg_phiforce_nonaxi)
      else Ok 0
  end.

(** [Potential.Rphideriv] *)
Definition Rphideriv (self : Potential) (R Z : float) (phi : option float) (t : float) : result float :=
  match _Rphideriv self with
  | Some f => Ok (_amp self * f R Z phi t)
  | None =>
      if isNonAxi self then Raise (PotentialError msg_phiforce_nonaxi)
      else Ok 0
  end.

(** [Potential.rforce] *)
Definition rforce (self : Potential) (R z : float) (phi : option float) (t : float)
  : result float :=
  let r := sqrt (R ^ 2 + z ^ 2) in
  fR <- Rforce self R z phi t ;;
  fz <- zforce self R z phi t ;;
  Ok (fR * R / r + fz * z / r).

(** [Potential.dens]: the raw density when the subclass has one and
    [forcepoisson] is off, the Poisson equation otherwise, whose two
    quotients by [R] and by [R**2.] are of Python floats and are formed
    in the order of the source. *)
Definition dens (self : Potential) (R z : float) (phi : option float) (t : float)
  (forcepoisson : bool) : result float :=
  match (if forcepoisson then None else _dens self) with
  | Some f => Ok (_amp self * f R z phi t)
  | None =>
      fR <- Rforce self R z phi t ;;
      q1 <- truediv (- fR) R ;;
      d2R <- R2deriv self R z phi t ;;
      d2p <- phi2deriv self R z phi t ;;
      q2 <- truediv d2p (R ^ 2) ;;
      d2z <- z2deriv self R z phi t ;;
      Ok ((q1 + d2R + q2 + d2z) / 4 / PI)
  end.

(** [Potential._call_nodecorator]; the value is Python's [None] when the
    raw [_evaluate] returns [None]. *)
Definition _call_nodecorator (self : Potential) (R z : float) (phi : option float) (t : float)
  (dR dphi : Z) : result (option float) :=
  if ((dR =? 0) && (dphi =? 0))%Z then
    match _evaluate self with
    | None => Raise (PotentialError msg_evaluate)
    | Some f =>
        match f R z phi t with
        | None => Ok None
        | Some rawOut => Ok (Some (_amp self * rawOut))
        end
    end
  else if ((dR =? 1) && (dphi =? 0))%Z then
    v <- Rforce self R z phi t ;; Ok (Some (- v))
  else if ((dR =? 0) && (dphi =? 1))%Z then
    v <- phiforce self R z phi t ;; Ok (Some (- v))
  else if ((dR =? 2) && (dphi =? 0))%Z then
    v <- R2deriv self R z phi t ;; Ok (Some v)
  else if ((dR =? 0) && (dphi =? 2))%Z then
    v <- phi2deriv self R z phi t ;; Ok (Some v)
  else if ((dR =? 1) && (dphi =? 1))%Z then
    v <- Rphideriv self R z phi t ;; Ok (Some v)
  else if (negb (dR =? 0) || negb (dphi =? 0))%Z then
    Raise (NotImplementedError msg_higher_order)
  else Ok None.

(** [Potential.normalize]: the statement [self._amp*= norm/nu.fabs(...)],
    with [Rforce] called at [R=1.], [z=0.] and the default [phi=0.]. *)
Definition normalize (self : Potential) (norm t : float) : result Potential :=
  f <- Rforce self 1 0 (Some 0) t ;;
  Ok (set_amp self (_amp self * (norm / Rabs f))).

(** [Potential.vcirc] *)
Definition vcirc_method (self : Potential) (R : float) (phi : option float) : result float :=
  f <- Rforce self R 0 phi 0 ;; Ok (sqrt (R * - f)).

(** [Potential.omegac] *)
Definition omegac_method (self : Potential) (R : float) : result float :=
  f <- Rforce self R 0 (Some 0) 0 ;;
  q <- truediv (- f) R ;;
  Ok (sqrt q).

(** [Potential.epifreq] *)
Definition epifreq_method (self : Potential) (R : float) : result float :=
  d <- R2deriv self R 0 (Some 0) 0 ;;
  q <- truediv 3 R ;;
  f <- Rforce self R 0 (Some 0) 0 ;;
  Ok (sqrt (d - q * f)).

(** What the module-level functions accept as [Pot]: an instance or a
    list of instances. *)
Inductive PotArg : Type :=
| Instance (p : Potential)
| PotList (ps : list Potential).

(** [_isNonAxi] *)
Definition _isNonAxi (Pot : PotArg) : bool :=
  match Pot with
  | PotList ps =>
      let isAxis := map (fun p => negb (isNonAxi p)) ps in
      negb (forallb (fun b => b) isAxis)
  | Instance p => isNonAxi p
  end.

Definition is_None {A : Type} (x : option A) : bool :=
  match x with None => true | Some _ => false end.

(** The loop [for pot in Pot: sum+= member(pot)] on floats. *)
Fixpoint sum_loop (member : Potential -> result float) (ps : list Potential) (sum : float)
  : result float :=
  match ps with
  | [] => Ok sum
  | pot :: rest => v <- member pot ;; sum_loop member rest (sum + v)
  end.

(** The same loop where a member may hand back [None], which [+=] on a
    float refuses. *)
Fixpoint sum_loop_opt (member : Potential -> result (option float)) (ps : list Potential)
  (sum : float) : result float :=
  match ps with
  | [] => Ok sum
  | pot :: rest =>
      v <- member pot ;;
      match v with
      | Some x => sum_loop_opt member rest (sum + x)
      | None => Raise (TypeError msg_add_None)
      end
  end.

(** [_evaluatePotentials], and [evaluatePotentials] under
    [use_physical=False]. *)
Definition _evaluatePotentials (Pot : PotArg) (R z : float) (phi : option float) (t : float)
  (dR dphi : Z) : result (option float) :=
  let nonAxi := _isNonAxi Pot in
  if nonAxi && is_None phi then Raise (PotentialError msg_no_phi)
  else
    match Pot with
    | PotList ps =>
        s <- sum_loop_opt (fun pot => _call_nodecorator pot R z phi t dR dphi) ps 0 ;;
        Ok (Some s)
    | Instance p => _call_nodecorator p R z phi t dR dphi
    end.

Definition evaluatePotentials := _evaluatePotentials.

(** [_evaluateRforces] and [evaluateRforces]. *)
Definition _evaluateRforces (Pot : PotArg) (R z : float) (phi : option float) (t : float)
  : result float :=
  let nonAxi := _isNonAxi Pot in
  if nonAxi && is_None phi then Raise (PotentialError msg_no_phi)
  else
    match Pot with
    | PotList ps => sum_loop (fun pot => _Rforce_nodecorator pot R z phi t) ps 0
    | Instance p => _Rforce_nodecorator p R z phi t
    end.

Definition evaluateRforces := _evaluateRforces.

(** [_evaluatephiforces] and [evaluatephiforces]. *)
Definition _evaluatephiforces (Pot : PotArg) (R z : float) (phi : option float) (t : float)
  : result float :=
  let nonAxi := _isNonAxi Pot in
  if nonAxi && is_None phi then Raise (PotentialError msg_no_phi)
  else
    match Pot with
    | PotList ps => sum_loop (fun pot => _phiforce_nodecorator pot R z phi t) ps 0
    | Instance p => _phiforce_nodecorator p R z phi t
    end.

Definition evaluatephiforces := _evaluatephiforces.

(** [_evaluatezforces] and [evaluatezforces]. *)
Definition _evaluatezforces (Pot : PotArg) (R z : float) (phi : option float) (t : float)
  : result float :=
  let nonAxi := _isNonAxi Pot in
  if nonAxi && is_None phi then Raise (PotentialError msg_no_phi)
  else
    match Pot with
    | PotList ps => sum_loop (fun pot => _zforce_nodecorator pot R z phi t) ps 0
    | Instance p => _zforce_nodecorator p R z phi t
    end.

Definition evaluatezforces := _evaluatezforces.

(** [evaluateR2derivs] *)
Definition evaluateR2derivs (Pot : PotArg) (R z : float) (phi : option float) (t : float)
  : result float :=
  let nonAxi := _isNonAxi Pot in
  if nonAxi && is_None phi then Raise (PotentialError msg_no_phi)
  else
    match Pot with
    | PotList ps => sum_loop (fun pot => R2deriv pot R z phi t) ps 0
    | Instance p => R2deriv p R z phi t
    end.

(** [evaluatez2derivs] *)
Definition evaluatez2derivs (Pot : PotArg) (R z : float) (phi : option float) (t : float)
  : result float :=
  let nonAxi := _isNonAxi Pot in
  if nonAxi && is_None phi then Raise (PotentialError msg_no_phi)
  else
    match Pot with
    | PotList ps => sum_loop (fun pot => z2deriv pot R z phi t) ps 0
    | Instance p => z2deriv p R z phi t
    end.

(** [evaluateRzderivs] *)
Definition evaluateRzderivs (Pot : PotArg) (R z : float) (phi : option float) (t : float)
  : result float :=
  let nonAxi := _isNonAxi Pot in
  if nonAxi && is_None phi then Raise (PotentialError msg_no_phi)
  else
    match Pot with
    | PotList ps => sum_loop (fun pot => Rzderiv pot R z phi t) ps 0
    | Instance p => Rzderiv p R z phi t
    end.

(** [evaluateDensities] *)
Definition evaluateDensities (Pot : PotArg) (R z : float) (phi : option float)
  (t : float) (forcepoisson : bool) : result float :=
  let nonAxi := _isNonAxi Pot in
  if nonAxi && is_None phi then Raise (PotentialError msg_no_phi)
  else
    match Pot with
    | PotList ps => sum_loop (fun pot => dens pot R z phi t forcepoisson) ps 0
    | Instance p => dens p R z phi t forcepoisson
    end.

(** [evaluaterforces] *)
Definition evaluaterforces (Pot : PotArg) (R z : float) (phi : option float) (t : float)
  : result float :=
  let nonAxi := _isNonAxi Pot in
  if nonAxi && is_None phi then Raise (PotentialError msg_no_phi)
  else
    match Pot with
    | PotList ps => sum_loop (fun pot => rforce pot R z phi t) ps 0
    | Instance p => rforce p R z phi t
    end.

(** The members of a [Pot] argument. *)
Definition members (Pot : PotArg) : list Potential :=
  match Pot with
  | Instance p => [p]
  | PotList ps => ps
  end.

(** The sum of the members' values. *)
Definition total (vs : list float) : float := fold_right Rplus 0 vs.

(** The public evaluation operations, by name, with the arguments they
    take besides [(Pot,R,z,phi,t)]. *)
Inductive operation : Type :=
| OpPotentials (dR dphi : Z)
| OpDensities (forcepoisson : bool)
| OpRforces
| Opphiforces
| Opzforces
| Oprforces
| OpR2derivs
| Opz2derivs
| OpRzderivs.

Definition some {A : Type} (r : result A) : result (option A) :=
  v <- r ;; Ok (Some v).

(** The method an operation calls on each member. *)
Definition member_call (op : operation) (p : Potential) (R z : float)
  (phi : option float) (t : float) : result (option float) :=
  match op with
  | OpPotentials dR dphi => _call_nodecorator p R z phi t dR dphi
  | OpDensities forcepoisson => some (dens p R z phi t forcepoisson)
  | OpRforces => some (_Rforce_nodecorator p R z phi t)
  | Opphiforces => some (_phiforce_nodecorator p R z phi t)
  | Opzforces => some (_zforce_nodecorator p R z phi t)
  | Oprforces => some (rforce p R z phi t)
  | OpR2derivs => some (R2deriv p R z phi t)
  | Opz2derivs => some (z2deriv p R z phi t)
  | OpRzderivs => some (Rzderiv p R z phi t)
  end.

(** The operation itself. *)
Definition evaluate (op : operation) (Pot : PotArg) (R z : float)
  (phi : option float) (t : float) : result (option float) :=
  match op with
  | OpPotentials dR dphi => evaluatePotentials Pot R z phi t dR dphi
  | OpDensities forcepoisson => some (evaluateDensities Pot R z phi t forcepoisson)
  | OpRforces => some (evaluateRforces Pot R z phi t)
  | Opphiforces => some (evaluatephiforces Pot R z phi t)
  | Opzforces => some (evaluatezforces Pot R z phi t)
  | Oprforces => some (evaluaterforces Pot R z phi t)
  | OpR2derivs => some (evaluateR2derivs Pot R z phi t)
  | Opz2derivs => some (evaluatez2derivs Pot R z phi t)
  | OpRzderivs => some (evaluateRzderivs Pot R z phi t)
  end.

(** The shape every operation has: the azimuth gate, then the sum over a
    list or the call on an instance. *)
Definition gated (member : Potential -> result (option float)) (Pot : PotArg)
  (phi : option float) : result (option float) :=
  if _isNonAxi Pot && is_None phi then Raise (PotentialError msg_no_phi)
  else match Pot with
       | PotList ps => some (sum_loop_opt member ps 0)
       | Instance p => member p
       end.

(** [str.lower] on ASCII strings and the test [sub in s]. *)
Definition lower_ascii (c : ascii) : ascii :=
  let n := nat_of_ascii c in
  if (65 <=? n)%nat && (n <=? 90)%nat then ascii_of_nat (n + 32) else c.

Fixpoint lower (s : string) : string :=
  match s with
  | EmptyString => EmptyString
  | String c s' => String (lower_ascii c) (lower s')
  end.

Fixpoint str_in (sub s : string) : bool :=
  if prefix sub s then true
  else match s with
       | EmptyString => false
       | String _ s' => str_in sub s'
       end.

(** The keyword arguments of [scipy.optimize.brentq] the callers set or
    pass through; [None] leaves scipy's default. *)
Record brentq_kwargs : Type := mkKwargs {
  xtol : option float;
  rtol : option float;
  maxiter : option nat;
  disp : option bool
}.

Definition no_kwargs : brentq_kwargs := mkKwargs None None None None.

Definition b2R (b : bool) : float := if b then 1 else 0.

Definition msg_m : string :=
  "'m' input not recognized, should be an integer or 'corotation'".

Section Kinematics.

(** Planar potentials (an instance or a list of them) and the functions
    of [planarPotential.py], [plotRotcurve.py] and scipy that the
    kinematic functions import. *)
Variable planarArg : Type.

(** What [rl], [lindbladR], [omegac] and [epifreq] accept as [Pot]. *)
Definition anyPot : Type := (PotArg + planarArg)%type.

Variable RZToplanarPotential : anyPot -> planarArg.
(** [evaluateplanarRforces(Pot,R,use_physical=False)] *)
Variable evaluateplanarRforces : anyPot -> float -> result float.
(** [evaluateplanarR2derivs(Pot,R,use_physical=False)] *)
Variable evaluateplanarR2derivs : anyPot -> float -> result float.
(** [isinstance(Pot,planarPotential)] and [planarPotential.epifreq]. *)
Variable planar_isinstance : planarArg -> bool.
Variable planar_epifreq : planarArg -> float -> result float.
(** [vcirc(pot,R,use_physical=False)] of [plotRotcurve.py]. *)
Variable vcirc : anyPot -> float -> result float.
(** [optimize.brentq(f,a,b,**kwargs)], with [args] already applied to
    [f]; an exception of the callback passes through it. *)
Variable brentq : (float -> result float) -> float -> float -> brentq_kwargs
                  -> result float.

(** The body shared by the two branches of the module-level [omegac]. *)
Definition omegac_planar (Pot : anyPot) (R : float) : result float :=
  f <- evaluateplanarRforces Pot R ;;
  q <- truediv (- f) R ;;
  Ok (sqrt q).

(** [omegac], module level. *)
Definition omegac (Pot : anyPot) (R : float) : result float :=
  match omegac_planar Pot R with
  | Raise (PotentialError _) =>
      omegac_planar (inr (RZToplanarPotential Pot)) R
  | r => r
  end.

(** The body shared by the two branches of the module-level [epifreq]. *)
Definition epifreq_planar (Pot : anyPot) (R : float) : result float :=
  d <- evaluateplanarR2derivs Pot R ;;
  q <- truediv 3 R ;;
  f <- evaluateplanarRforces Pot R ;;
  Ok (sqrt (d - q * f)).

(** [epifreq], module level. *)
Definition epifreq (Pot : anyPot) (R : float) : result float :=
  match Pot with
  | inl (Instance p) => epifreq_method p R
  | inr q =>
      if planar_isinstance q then planar_epifreq q R
      else
        match epifreq_planar Pot R with
        | Raise (PotentialError _) =>
            epifreq_planar (inr (RZToplanarPotential Pot)) R
        | r => r
        end
  | inl (PotList _) =>
      match epifreq_planar Pot R with
      | Raise (PotentialError _) =>
          epifreq_planar (inr (RZToplanarPotential Pot)) R
      | r => r
      end
  end.

(** [_rlfunc(rl,lz,pot)] *)
Definition _rlfunc (rl lz : float) (pot : anyPot) : result float :=
  thisvcirc <- vcirc pot rl ;; Ok (rl * thisvcirc - lz).

(** The [while] loop of [_rlFindStart], run for at most [fuel] tests of
    its condition; [None] when the fuel is spent before the loop ends. *)
Fixpoint _rlFindStart_loop (fuel : nat) (rtry lz : float) (pot : anyPot)
  (lower : bool) : option (result float) :=
  match fuel with
  | O => None
  | S fuel' =>
      match _rlfunc rtry lz pot with
      | Raise e => Some (Raise e)
      | Ok v =>
          if Rgt_dec ((2 * b2R lower - 1) * v) 0 then
            _rlFindStart_loop fuel'
              (if lower then rtry / 2 else rtry * 2) lz pot lower
          else Some (Ok rtry)
      end
  end.

(** [_rlFindStart(rl,lz,pot,lower=False)] *)
Definition _rlFindStart (fuel : nat) (rl lz : float) (pot : anyPot) (lower : bool)
  : option (result float) :=
  let rtry := 2 * rl in
  _rlFindStart_loop fuel rtry lz pot lower.

(** [rl(Pot,lz)], module level, for a float [lz]. *)
Definition rl (fuel : nat) (Pot : anyPot) (lz : float) : option (result float) :=
  match _rlFindStart fuel (Rabs lz) (Rabs lz) Pot false with
  | None => None
  | Some (Raise e) => Some (Raise e)
  | Some (Ok rstart) =>
      match brentq (fun r => _rlfunc r (Rabs lz) Pot) (/ 10 ^ 5) rstart
              (mkKwargs None None (Some 200%nat) (Some false)) with
      | Raise (ValueError _) =>
          match _rlFindStart fuel (/ 10 ^ 5) (Rabs lz) Pot true with
          | None => None
          | Some (Raise e) => Some (Raise e)
          | Some (Ok rlower) =>
              Some (brentq (fun r => _rlfunc r (Rabs lz) Pot) rlower rstart
                      no_kwargs)
          end
      | r => Some r
      end
  end.

(** [_corotationR_eq(R,Pot,OmegaP)] *)
Definition _corotationR_eq (R : float) (Pot : anyPot) (OmegaP : float) : result float :=
  o <- omegac Pot R ;; Ok (o - OmegaP).

(** [_lindbladR_eq(R,Pot,OmegaP,m)] *)
Definition _lindbladR_eq (R : float) (Pot : anyPot) (OmegaP m : float) : result float :=
  o <- omegac Pot R ;;
  k <- epifreq Pot R ;;
  Ok (m * (o - OmegaP) - k).

(** [lindbladR(Pot,OmegaP,m=2,**kwargs)], module level, for a float
    [OmegaP]; [m] is a string or a number, and the value is [None] when
    there is no resonance. *)
Definition lindbladR (Pot : anyPot) (OmegaP : float) (m : string + float)
  (kwargs : brentq_kwargs) : result (option float) :=
  match m with
  | inl s =>
      if str_in "corot" (lower s) then
        match brentq (fun R => _corotationR_eq R Pot OmegaP) (1 / 10 ^ 7) 1000
                kwargs with
        | Ok out => Ok (Some out)
        | Raise (ValueError _) => Ok None
        | Raise e => Raise e
        end
      else Raise (IOError msg_m)
  | inr mv =>
      match brentq (fun R => _lindbladR_eq R Pot OmegaP mv) (1 / 10 ^ 7) 1000
              kwargs with
      | Ok out => Ok (Some out)
      | Raise (ValueError _) => Ok None
      | Raise e => Raise e
      end
  end.

(** The radial force [F] that [omegac] reads at [R]: of [Pot], or, when
    that raises [PotentialError], of the projection of [Pot] to the
    plane. *)
Definition omegac_reads (Pot : anyPot) (R F : float) : Prop :=
  evaluateplanarRforces Pot R = Ok F \/
  ((exists msg, evaluateplanarRforces Pot R = Raise (PotentialError msg)) /\
   evaluateplanarRforces (inr (RZToplanarPotential Pot)) R = Ok F).

(** The second radial derivative [d] and the radial force [F] that the
    planar functions give for [Pot] at [R], and the two ways in which they
    raise [PotentialError] at [R <> 0]. *)
Definition planar_gives (Pot : anyPot) (R d F : float) : Prop :=
  evaluateplanarR2derivs Pot R = Ok d /\ evaluateplanarRforces Pot R = Ok F.

Definition planar_refuses (Pot : anyPot) (R : float) : Prop :=
  (exists msg, evaluateplanarR2derivs Pot R = Raise (PotentialError msg)) \/
  (exists d msg, evaluateplanarR2derivs Pot R = Ok d /\
                 evaluateplanarRforces Pot R = Raise (PotentialError msg)).

(** What [epifreq] reads at [R]: the second radial derivative [d] and the
    radial force [F], from the methods of a 3D instance; from the planar
    functions on a list or on a planar argument that is not a
    [planarPotential], for [Pot] or, when they raise [PotentialError], for
    its projection to the plane; and on a [planarPotential], whose method
    is not among the sources, through the value of that method. *)
Definition epifreq_reads (Pot : anyPot) (R d F : float) : Prop :=
  let planar :=
    planar_gives Pot R d F \/
    (planar_refuses Pot R /\ planar_gives (inr (RZToplanarPotential Pot)) R d F) in
  match Pot with
  | inl (Instance p) =>
      R2deriv p R 0 (Some 0) 0 = Ok d /\ Rforce p R 0 (Some 0) 0 = Ok F
  | inl (PotList _) => planar
  | inr q =>
      if planar_isinstance q
      then planar_epifreq q R = Ok (sqrt (d - 3 / R * F))
      else planar
  end.

End Kinematics.

End Potential.

(** ** SCFPotential.py *)

Module SCFPotential.

(** A three-index float array with its [shape]. *)
Record ndarray3 : Type := mkArray3 {
  shape : nat * nat * nat;
  item : nat -> nat -> nat -> float
}.

(** Two- and three-index working tables; an entry that was never written
    holds the [0.] of [nu.zeros]. *)
Definition table2 : Type := nat -> nat -> float.
Definition table3 : Type := nat -> nat -> nat -> float.

Definition zeros2 : table2 := fun _ _ => 0.
Definition zeros3 : table3 := fun _ _ _ => 0.

(** [T[i][j]= v] *)
Definition upd2 (T : table2) (i j : nat) (v : float) : table2 :=
  fun i' j' => if (i' =? i)%nat && (j' =? j)%nat then v else T i' j'.

(** [A[:,l,m]] *)
Definition slice (A : ndarray3) (l m : nat) : result (list float) :=
  let '(N, L, M) := shape A in
  if (l <? L)%nat && (m <? M)%nat
  then Ok (map (fun n => item A n l m) (seq 0 N))
  else Raise (IndexError "index out of bounds").

(** [T[:,l]] on an [N]-row table. *)
Definition column (N : nat) (T : table2) (l : nat) : list float :=
  map (fun n => T n l) (seq 0 N).

(** [func[:,l,m]= v] for a column [v] already broadcast to the rows. *)
Definition setcol (func : table3) (l m : nat) (v : list float) : table3 :=
  fun n' l' m' =>
    if (l' =? l)%nat && (m' =? m)%nat then nth n' v 0 else func n' l' m'.

(** Elementwise [op] on two one-dimensional arrays under numpy's
    broadcasting rule. *)
Definition broadcast2 (op : float -> float -> float) (a b : list float)
  : result (list float) :=
  if (length a =? length b)%nat then Ok (map (fun p => op (fst p) (snd p)) (combine a b))
  else match a, b with
       | [x], _ => Ok (map (fun y => op x y) b)
       | _, [y] => Ok (map (fun x => op x y) a)
       | _, _ => Raise (ValueError "operands could not be broadcast together")
       end.

(** [nu.sum] of an [N x L x L] table. *)
Definition sum3 (N L : nat) (func : table3) : float :=
  nu.sum (map (fun n =>
    nu.sum (map (fun l =>
      nu.sum (map (fun m => func n l m) (seq 0 L))) (seq 0 L))) (seq 0 N)).

(** The attributes [SCFPotential.__init__] adds to those of [Potential]. *)
Record SCFPotential : Type := mkSCF {
  _amp : float;
  _Acos : ndarray3;
  _Asin : ndarray3;
  _a : float;
  _NN : table2
}.

(** [nu.math.factorial] *)
Definition fact (n : nat) : float := INR (Factorial.fact n).

(** [SCFPotential._Nroot] *)
Definition _Nroot (L : nat) : table2 :=
  fold_left (fun NN l =>
    fold_left (fun NN m =>
      upd2 NN l m
        (sqrt ((2 * INR l + 1) / (4 * PI) * fact (l - m) / fact (l + m))
         * (2 - (if (m =? 0)%nat then 1 else 0))))
      (seq 0 (l + 1)) NN)
    (seq 0 L) zeros2.

(** [SCFPotential.__init__] with [normalize=False] and a float [a]. *)
Definition init (amp : float) (Acos Asin : ndarray3) (a : float) : SCFPotential :=
  mkSCF amp Acos Asin a (_Nroot (snd (fst (shape Acos)))).

(** One pass of the body of the double loop of [_C], at [(l,n)]. *)
Definition _C_body (xi : float) (N l n : nat) (CC : table2) : table2 :=
  let alpha := 2 * INR l + 3 / 2 in
  if (n =? 0)%nat then upd2 CC n l 1
  else
    let CC1 := if (n =? 1)%nat then upd2 CC n l (2 * alpha * xi) else CC in
    if negb (n + 1 =? N)%nat then
      upd2 CC1 (n + 1) l
        (/ (INR n + 1) *
         (2 * (INR n + alpha) * xi * CC1 n l
          - (INR n + 2 * alpha - 1) * CC1 (n - 1)%nat l))
    else CC1.

(** [SCFPotential._C] *)
Definition _C (xi : float) (L N : nat) : table2 :=
  fold_left (fun CC l =>
    fold_left (fun CC n => _C_body xi N l n CC) (seq 0 N) CC)
    (seq 0 L) zeros2.

(** [SCFPotential._calculateXi] *)
Definition _calculateXi (self : SCFPotential) (r : float) : float :=
  let a := _a self in (r - a) / (r + a).

(** [SCFPotential._rhoTilde]: the table its double loop fills. *)
Definition _rhoTilde (self : SCFPotential) (r : float) (CC : table2) (N L : nat)
  : table2 :=
  let a := _a self in
  fun n l =>
    if (n <? N)%nat && (l <? L)%nat then
      let K := 0.5 * INR n * (INR n + 4 * INR l + 3)
               + (INR l + 1) * (2 * INR l + 1) in
      K / (2 * PI) * (a * r) ^ l / ((r / a) * (a + r) ^ (2 * l + 3))
      * CC n l * sqrt (4 * PI)
    else 0.

(** [SCFPotential._phiTilde]: the table its double loop fills. *)
Definition _phiTilde (self : SCFPotential) (r : float) (CC : table2) (N L : nat)
  : table2 :=
  let a := _a self in
  fun n l =>
    if (n <? N)%nat && (l <? L)%nat then
      - (r * a) ^ l / ((a + r) ^ (2 * l + 1)) * CC n l * sqrt (4 * PI)
    else 0.

(** The Python variable [m] of [_compute]: first the array
    [nu.arange(0,L)], then the integer the inner [for] binds. *)
Inductive mvar : Type :=
| MArr (a : list nat)
| MInt (k : nat).

(** [m + 1] *)
Definition add1 (m : mvar) : mvar :=
  match m with
  | MArr a => MArr (map S a)
  | MInt k => MInt (S k)
  end.

Definition msg_range : string :=
  "only length-1 arrays can be converted to Python scalars".

(** [range(x)]: an integer, or an array of exactly one integer, which
    numpy converts to a scalar; any other array is refused. *)
Definition range (x : mvar) : result (list nat) :=
  match x with
  | MInt k => Ok (seq 0 k)
  | MArr [k] => Ok (seq 0 k)
  | MArr _ => Raise (TypeError msg_range)
  end.

Section Evaluation.

(** [bovy_coords.cyl_to_spher(R,phi,z)], giving [(r,theta,phi)], and
    the table [[0]] of [scipy.special.lpmn(m,n,x)]. *)
Variable cyl_to_spher : float -> float -> float -> float * float * float.
Variable lpmn : nat -> nat -> float -> table2.

(** The assignment in the inner loop of [_compute], for an integer [m]. *)
Definition assign (self : SCFPotential) (N : nat) (func_tilde PP : table2)
  (mcos msin : list float) (l m : nat) (func : table3) : result table3 :=
  ac <- slice (_Acos self) l m ;;
  c <- broadcast2 Rmult ac mcos ;;
  as_ <- slice (_Asin self) l m ;;
  s <- broadcast2 Rmult as_ msin ;;
  cs <- broadcast2 Rplus c s ;;
  v <- broadcast2 Rmult (column N func_tilde l) cs ;;
  let v := map (fun x => x * PP l m * _NN self l m) v in
  col <- nu.broadcast_to N v ;;
  Ok (setcol func l m col).

(** [for m in range(m + 1): ...] after [range(m + 1)] has been
    evaluated to [ms]; the loop variable is rebound at each pass. *)
Fixpoint inner_loop (self : SCFPotential) (N : nat) (func_tilde PP : table2)
  (mcos msin : list float) (l : nat) (ms : list nat) (st : table3 * mvar)
  : result (table3 * mvar) :=
  match ms with
  | [] => Ok st
  | m :: rest =>
      func <- assign self N func_tilde PP mcos msin l m (fst st) ;;
      inner_loop self N func_tilde PP mcos msin l rest (func, MInt m)
  end.

(** [for l in range(L): for m in range(m + 1): ...] *)
Fixpoint outer_loop (self : SCFPotential) (N : nat) (func_tilde PP : table2)
  (mcos msin : list float) (ls : list nat) (st : table3 * mvar)
  : result (table3 * mvar) :=
  match ls with
  | [] => Ok st
  | l :: rest =>
      ms <- range (add1 (snd st)) ;;
      st' <- inner_loop self N func_tilde PP mcos msin l ms st ;;
      outer_loop self N func_tilde PP mcos msin rest st'
  end.

(** [SCFPotential._compute] *)
Definition _compute (self : SCFPotential)
  (funcTilde : SCFPotential -> float -> table2 -> nat -> nat -> table2)
  (R z phi : float) : result table3 :=
  let '(N, L, M) := shape (_Acos self) in
  let '(r, theta, phi) := cyl_to_spher R phi z in
  let xi := _calculateXi self r in
  let PP := lpmn L L (cos theta) in
  let CC := _C xi L N in
  let func_tilde := funcTilde self r CC N L in
  let func := zeros3 in
  let m := seq 0 L in
  let mcos := map (fun k => cos (INR k * phi)) m in
  let msin := map (fun k => sin (INR k * phi)) m in
  st <- outer_loop self N func_tilde PP mcos msin (seq 0 L) (func, MArr m) ;;
  Ok (fst st).

(** [SCFPotential._dens]; [t] is not used. *)
Definition _dens (self : SCFPotential) (R z phi t : float) : result float :=
  let '(N, L, M) := shape (_Acos self) in
  func <- _compute self _rhoTilde R z phi ;; Ok (sum3 N L func).

(** [SCFPotential._evaluate]; [t] is not used. *)
Definition _evaluate (self : SCFPotential) (R z phi t : float) : result float :=
  let '(N, L, M) := shape (_Acos self) in
  func <- _compute self _phiTilde R z phi ;; Ok (sum3 N L func).

(** The sum the specification describes: over every [n < N], [l < L]
    and [m <= l], radial profile x angular profile x normalization x
    [(Acos cos(m phi) + Asin sin(m phi))]. *)
Definition spec_sum (self : SCFPotential)
  (funcTilde : SCFPotential -> float -> table2 -> nat -> nat -> table2)
  (R z phi : float) : float :=
  let '(N, L, M) := shape (_Acos self) in
  let '(r, theta, phi) := cyl_to_spher R phi z in
  let xi := _calculateXi self r in
  let PP := lpmn L L (cos theta) in
  let func_tilde := funcTilde self r (_C xi L N) N L in
  nu.sum (map (fun n =>
    nu.sum (map (fun l =>
      nu.sum (map (fun m =>
        func_tilde n l * PP l m * _NN self l m
        * (item (_Acos self) n l m * cos (INR m * phi)
           + item (_Asin self) n l m * sin (INR m * phi)))
        (seq 0 (l + 1)))) (seq 0 L))) (seq 0 N)).

End Evaluation.

End SCFPotential.

(** ** The radius-only integrator and the composite sum over any arithmetic

    [_REOM], [_integrateROrbit] and [_evaluatePotentials] once more, with
    the float operations taken from an [Arith.ops]: at [Arith.real] they
    are the definitions above, at [Arith.binary64] they compute as the
    machine does. *)

Module Generic.

Section RadiusOnly.

Variable num : Type.
Variable A : Arith.ops num.
(** [x**n.] for a float literal [n.], which is libm's [pow], and the
    literal [10.**-8.]. *)
Variable powf : num -> nat -> num.
Variable rtol : num.
Variable planarPotential : Type.
Variable evaluateplanarRforces : num -> planarPotential -> option num -> num -> num.
Variable odeint : (list num -> num -> list num) -> list num -> list num -> num
                  -> list (list num).

Definition at_ (y : list num) (i : nat) : num := nth i y (Arith.zero A).

(** [_REOM(y,t,pot,l2)] *)
Definition _REOM (y : list num) (t : num) (pot : planarPotential) (l2 : num) : list num :=
  [ at_ y 1;
    Arith.add A (Arith.div A l2 (powf (at_ y 0) 3))
      (evaluateplanarRforces (at_ y 0) pot None t) ].

(** [_integrateROrbit(vxvv,pot,t)] *)
Definition _integrateROrbit (vxvv : list num) (pot : planarPotential) (t : list num)
  : result (list (list num)) :=
  v0 <- nu.getitem vxvv 0 ;;
  v2 <- nu.getitem vxvv 2 ;;
  let l := Arith.mul A v0 v2 in
  let l2 := powf l 2 in
  v1 <- nu.getitem vxvv 1 ;;
  let init := [v0; v1] in
  let intOut := odeint (fun y s => _REOM y s pot l2) init t rtol in
  c0 <- nu.col 0 intOut ;;
  out0 <- nu.broadcast_to (length t) c0 ;;
  c1 <- nu.col 1 intOut ;;
  out1 <- nu.broadcast_to (length t) c1 ;;
  let out2 := map (fun r => Arith.div A l r) out0 in
  Ok (rows3 out0 out1 out2).

(** One row per requested time, each with as many entries as the state. *)
Definition well_shaped (n k : nat) (M : list (list num)) : Prop :=
  length M = n /\ Forall (fun row => length row = k) M.

End RadiusOnly.

Section CompositeSum.

Variable num : Type.
Variable A : Arith.ops num.
(** The class of the members, its attribute [isNonAxi] and its method
    [_call_nodecorator(R,z,phi,t,dR,dphi)]. *)
Variable Potential : Type.
Variable isNonAxi : Potential -> bool.
Variable _call_nodecorator :
  Potential -> num -> num -> option num -> num -> Z -> Z -> result (option num).

Inductive PotArg : Type :=
| Instance (p : Potential)
| PotList (ps : list Potential).

(** [_isNonAxi] *)
Definition _isNonAxi (Pot : PotArg) : bool :=
  match Pot with
  | PotList ps =>
      let isAxis := map (fun p => negb (isNonAxi p)) ps in
      negb (forallb (fun b => b) isAxis)
  | Instance p => isNonAxi p
  end.

(** The loop [for pot in Pot: sum+= member(pot)]. *)
Fixpoint sum_loop_opt (member : Potential -> result (option num)) (ps : list Potential)
  (sum : num) : result num :=
  match ps with
  | [] => Ok sum
  | pot :: rest =>
      v <- member pot ;;
      match v with
      | Some x => sum_loop_opt member rest (Arith.add A sum x)
      | None => Raise (TypeError Potential.msg_add_None)
      end
  end.

(** [_evaluatePotentials] *)
Definition _evaluatePotentials (Pot : PotArg) (R z : num) (phi : option num) (t : num)
  (dR dphi : Z) : result (option num) :=
  let nonAxi := _isNonAxi Pot in
  if nonAxi && Potential.is_None phi then Raise (PotentialError Potential.msg_no_phi)
  else
    match Pot with
    | PotList ps =>
        s <- sum_loop_opt (fun pot => _call_nodecorator pot R z phi t dR dphi) ps
               (Arith.zero A) ;;
        Ok (Some s)
    | Instance p => _call_nodecorator p R z phi t dR dphi
    end.

End CompositeSum.

End Generic.

(** ** Concrete inputs

    Small orbits, fields and stand-ins for the external primitives, on
    which the statements below are run. *)

Module Examples.

Import planarOrbit.

(** An integrated orbit sampled at two times, at radii 1 and 2. *)
Definition orbit_1_2 : planarOrbitTop :=
  mkOrbit [1; 0; 1] (Some [0; 1]) (Some [[1; 0; 1]; [2; 0; 1 / 2]]) None.

(** Explicit Euler steps between consecutive requested times: a stand-in
    for [odeint] with the same interface. *)
Fixpoint euler_from (f : list float -> float -> list float) (y : list float)
  (s : float) (ts : list float) : list (list float) :=
  match ts with
  | [] => []
  | s' :: rest =>
      let y' := map (fun p => fst p + (s' - s) * snd p) (combine y (f y s)) in
      y' :: euler_from f y' s' rest
  end.

Definition euler_odeint (f : list float -> float -> list float) (y0 : list float)
  (ts : list float) (rtol : float) : list (list float) :=
  match ts with
  | [] => []
  | s0 :: rest => y0 :: euler_from f y0 s0 rest
  end.

(** A point-mass planar field: radial force [-1/R^2], no azimuthal force. *)
Definition kepler_Rforce (R : float) (pot : unit) (phi : option float) (t : float)
  : float := - / R ^ 2.

Definition kepler_phiforce (R : float) (pot : unit) (phi : option float) (t : float)
  : float := 0.

Import Potential.

(** An axisymmetric field with a flat rotation curve: potential [ln R],
    radial force [-1/R]; it defines no azimuthal raw method. *)
Definition flat : Potential.Potential :=
  mkPotential 1 3 true false false false 8 false 220 false
    (Some (fun R z phi t => Some (ln R)))
    (Some (fun R z phi t => - / R))
    None None
    (Some (fun R z phi t => - / R ^ 2))
    None None None None None.

(** The quartic field [Phi = R^4/4]: radial force [-R^3] and second
    radial derivative [3 R^2], so that the circular frequency is [R] and
    the epicycle frequency [sqrt(6) R]. *)
Definition quartic : Potential.Potential :=
  mkPotential 1 3 true false false false 8 false 220 false
    (Some (fun R z phi t => Some (R ^ 4 / 4)))
    (Some (fun R z phi t => - R ^ 3))
    None None
    (Some (fun R z phi t => 3 * R ^ 2))
    None None None None None.

(** The same field at amplitude [1/16]: circular velocity [1/4]. *)
Definition slow : Potential.Potential := set_amp flat (1 / 16).

(** A non-axisymmetric field that defines [_evaluate] only. *)
Definition bar : Potential.Potential :=
  mkPotential 1 3 true true false false 8 false 220 false
    (Some (fun R z phi t =>
             Some (match phi with Some p => R * cos (2 * p) | None => R end)))
    None None None None None None None None None.

(** A bracketing root finder with the interface of [brentq]: it refuses
    end points of equal sign, takes one false-position step, and reports
    the point only if its residual is within [tol]. *)
Definition brentq_model (tol : float) (f : float -> result float) (a b : float)
  (kwargs : brentq_kwargs) : result float :=
  fa <- f a ;;
  fb <- f b ;;
  if Rgt_dec (fa * fb) 0
  then Raise (ValueError "f(a) and f(b) must have different signs")
  else
    let x := if Req_dec_T fa fb then a else a - fa * (b - a) / (fb - fa) in
    fx <- f x ;;
    if Rle_dec (Rabs fx) tol then Ok x
    else Raise (RuntimeError "Failed to converge").

(** Modelled from the spec: [vcirc] of [plotRotcurve.py], which is not
    among the sources; the circular velocity is
    [sqrt(R * (-F_R(R,0)))], with the radial force of the field or of the
    list of fields. *)
Definition vcirc_spec (Pot : PotArg + unit) (R : float) : result float :=
  match Pot with
  | inl P => f <- _evaluateRforces P R 0 None 0 ;; Ok (sqrt (R * - f))
  | inr _ => Raise (PotentialError "not a 3D potential")
  end.

(** Stand-ins for the planar helpers of [planarPotential.py]: the planar
    projection of a 3D field at [z=0]. *)
Definition planar_Rforces (Pot : PotArg + unit) (R : float) : result float :=
  match Pot with
  | inl P => _evaluateRforces P R 0 None 0
  | inr _ => Raise (PotentialError "not a 3D potential")
  end.

Definition planar_R2derivs (Pot : PotArg + unit) (R : float) : result float :=
  match Pot with
  | inl P => evaluateR2derivs P R 0 None 0
  | inr _ => Raise (PotentialError "not a 3D potential")
  end.

Definition to_planar (Pot : PotArg + unit) : unit := tt.

Definition planar_isinstance (q : unit) : bool := true.

Definition planar_epifreq (q : unit) (R : float) : result float :=
  Raise (PotentialError "not a planar potential").

Import SCFPotential.

(** Coefficient arrays of shape 1 x 2 x 2, all ones. *)
Definition ones_1_2_2 : ndarray3 := mkArray3 (1, 2, 2)%nat (fun _ _ _ => 1).

Definition scf_1_2_2 : SCFPotential.SCFPotential :=
  SCFPotential.init 1 ones_1_2_2 ones_1_2_2 1.

End Examples.

(** ** Potential.py: construction, unit output and capability queries *)

Module PotentialSetup.

Import Potential.

(** The astropy units the constructor and the unit toggles convert to. *)
Inductive astropy_unit : Type :=
| u_kpc
| u_km_s
| u_km2_s2
| u_Msun
| u_pc_km2_s2
| u_Msun_pc3
| u_km2_s2_pc2
| u_Msun_pc2
| u_km2_s2_pc.

(** A call that can fail with astropy's [UnitConversionError]. *)
Inductive unit_result (A : Type) : Type :=
| Done (a : A)
| UnitConversionError (msg : string).

Arguments Done {A} a.
Arguments UnitConversionError {A} msg.

Definition ubind {A B : Type} (m : unit_result A) (k : A -> unit_result B)
  : unit_result B :=
  match m with
  | Done a => k a
  | UnitConversionError msg => UnitConversionError msg
  end.

(** ['%s' % amp_units] *)
Definition fmt (amp_units : option string) : string :=
  match amp_units with
  | Some s => s
  | None => "None"
  end.

(** [amp_units == name] *)
Definition units_are (amp_units : option string) (name : string) : bool :=
  match amp_units with
  | Some s => String.eqb s name
  | None => false
  end.

(** The message raised when the amplitude has the units [found] and the
    class [cls] expects [amp_units]. *)
Definition msg_wrong_units (cls : string) (amp_units : option string) (found : string)
  : string :=
  ("amp= parameter of " ++ cls ++ " should have units of " ++ fmt amp_units
   ++ ", but has units of " ++ found ++ " instead")%string.

Definition msg_unknown_units (cls : string) (amp_units : option string) : string :=
  ("amp= parameter of " ++ cls ++ " should have units of " ++ fmt amp_units
   ++ "; given units are not understood")%string.

(** [Potential.turn_physical_off] *)
Definition turn_physical_off (self : Potential) : Potential :=
  mkPotential (_amp self) (dim self) (isRZ self) (isNonAxi self) (hasC self)
    (hasC_dxdv self) (_ro self) false (_vo self) false
    (_evaluate self) (_Rforce self) (_zforce self) (_phiforce self)
    (_R2deriv self) (_z2deriv self) (_Rzderiv self) (_phi2deriv self)
    (_Rphideriv self) (_dens self).

(** The assignments [self._ro= ro; self._roSet= b] and the same for [vo]. *)
Definition set_ro (self : Potential) (ro : float) (b : bool) : Potential :=
  mkPotential (_amp self) (dim self) (isRZ self) (isNonAxi self) (hasC self)
    (hasC_dxdv self) ro b (_vo self) (_voSet self)
    (_evaluate self) (_Rforce self) (_zforce self) (_phiforce self)
    (_R2deriv self) (_z2deriv self) (_Rzderiv self) (_phi2deriv self)
    (_Rphideriv self) (_dens self).

Definition set_vo (self : Potential) (vo : float) (b : bool) : Potential :=
  mkPotential (_amp self) (dim self) (isRZ self) (isNonAxi self) (hasC self)
    (hasC_dxdv self) (_ro self) (_roSet self) vo b
    (_evaluate self) (_Rforce self) (_zforce self) (_phiforce self)
    (_R2deriv self) (_z2deriv self) (_Rzderiv self) (_phi2deriv self)
    (_Rphideriv self) (_dens self).

(** [_check_c] *)
Definition _check_c (Pot : PotArg) : bool :=
  match Pot with
  | PotList ps => forallb (fun b => b) (map hasC ps)
  | Instance p => hasC p
  end.

(** [nu.amin] of a one-dimensional integer array. *)
Definition amin_int (a : list Z) : result Z :=
  match a with
  | [] => Raise (ValueError "zero-size array to reduction operation minimum")
  | x :: xs => Ok (fold_left Z.min xs x)
  end.

(** [_dim] *)
Definition _dim (Pot : PotArg) : result Z :=
  match Pot with
  | PotList ps => amin_int (map dim ps)
  | Instance p => Ok (dim p)
  end.

Section Astropy.

(** Quantities of astropy, with [q.to(u).value], which fails when the units
    of [q] do not convert to [u]; the defaults of the configuration file;
    and the conversion factors of [bovy_conversion]. *)
Variable Quantity : Type.
Variable to_value : Quantity -> astropy_unit -> option float.
Variable config_ro : float.
Variable config_vo : float.
Variable mass_in_msol : float -> float -> float.
Variable dens_in_msolpc3 : float -> float -> float.
Variable surfdens_in_msolpc2 : float -> float -> float.
Variable _G : float.

Definition msg_astropy : string := "units are not convertible".

(** [x.to(u).value] for an argument that is a float or a Quantity. *)
Definition in_units (x : float + Quantity) (u : astropy_unit) : unit_result float :=
  match x with
  | inl v => Done v
  | inr q =>
      match to_value q u with
      | Some v => Done v
      | None => UnitConversionError msg_astropy
      end
  end.

(** The chain of trial conversions of a Quantity amplitude in
    [Potential.__init__], in the order the source tries them. *)
Definition parse_amp (cls : string) (amp_units : option string) (q : Quantity)
  (vo ro : float) : unit_result float :=
  match to_value q u_km2_s2 with
  | Some v =>
      if units_are amp_units "velocity2" then Done (v / vo ^ 2)
      else UnitConversionError (msg_wrong_units cls amp_units "velocity2")
  | None =>
  match to_value q u_Msun with
  | Some v =>
      if units_are amp_units "mass" then Done (v / mass_in_msol vo ro)
      else UnitConversionError (msg_wrong_units cls amp_units "mass")
  | None =>
  match to_value q u_pc_km2_s2 with
  | Some v =>
      if units_are amp_units "mass" then Done (v / mass_in_msol vo ro / _G)
      else UnitConversionError (msg_wrong_units cls amp_units "G x mass")
  | None =>
  match to_value q u_Msun_pc3 with
  | Some v =>
      if units_are amp_units "density" then Done (v / dens_in_msolpc3 vo ro)
      else UnitConversionError (msg_wrong_units cls amp_units "density")
  | None =>
  match to_value q u_km2_s2_pc2 with
  | Some v =>
      if units_are amp_units "density" then Done (v / dens_in_msolpc3 vo ro / _G)
      else UnitConversionError (msg_wrong_units cls amp_units "G x density")
  | None =>
  match to_value q u_Msun_pc2 with
  | Some v =>
      if units_are amp_units "surfacedensity"
      then Done (v / surfdens_in_msolpc2 vo ro)
      else UnitConversionError (msg_wrong_units cls amp_units "surface density")
  | None =>
  match to_value q u_km2_s2_pc with
  | Some v =>
      if units_are amp_units "surfacedensity"
      then Done (v / surfdens_in_msolpc2 vo ro / _G)
      else UnitConversionError (msg_wrong_units cls amp_units "G x surface density")
  | None => UnitConversionError (msg_unknown_units cls amp_units)
  end end end end end end end.

(** [Potential.__init__(self,amp=1.,ro=None,vo=None,amp_units=None)] with
    astropy loaded.  [self] carries the raw methods of its class, named
    [cls]; the attributes are the ones the constructor assigns. *)
Definition __init__ (self : Potential) (cls : string) (amp : float + Quantity)
  (ro vo : option (float + Quantity)) (amp_units : option string)
  : unit_result Potential :=
  ubind (match ro with
         | None => Done (config_ro, false)
         | Some x => ubind (in_units x u_kpc) (fun v => Done (v, true))
         end) (fun r =>
  ubind (match vo with
         | None => Done (config_vo, false)
         | Some x => ubind (in_units x u_km_s) (fun v => Done (v, true))
         end) (fun v =>
  let built (a : float) (roSet voSet : bool) :=
    mkPotential a 3 true false false false (fst r) roSet (fst v) voSet
      (_evaluate self) (_Rforce self) (_zforce self) (_phiforce self)
      (_R2deriv self) (_z2deriv self) (_Rzderiv self) (_phi2deriv self)
      (_Rphideriv self) (_dens self) in
  match amp with
  | inl a => Done (built a (snd r) (snd v))
  | inr q =>
      ubind (parse_amp cls amp_units q (fst v) (fst r)) (fun a =>
      Done (built a true true))
  end)).

(** [Potential.turn_physical_on(self,ro=None,vo=None)] *)
Definition turn_physical_on (self : Potential) (ro vo : option (float + Quantity))
  : unit_result Potential :=
  let self1 := set_vo (set_ro self (_ro self) true) (_vo self) true in
  ubind (match ro with
         | None => Done self1
         | Some x => ubind (in_units x u_kpc) (fun v => Done (set_ro self1 v true))
         end) (fun self2 =>
  match vo with
  | None => Done self2
  | Some x => ubind (in_units x u_km_s) (fun v => Done (set_vo self2 v true))
  end).

(** The loop [for pot in Pot: pot.turn_physical_on(ro=ro,vo=vo)]. *)
Fixpoint turn_on_each (ps : list Potential) (ro vo : option (float + Quantity))
  : unit_result (list Potential) :=
  match ps with
  | [] => Done []
  | pot :: rest =>
      ubind (turn_physical_on pot ro vo) (fun pot' =>
      ubind (turn_on_each rest ro vo) (fun rest' => Done (pot' :: rest')))
  end.

(** [turn_physical_on(Pot,ro=None,vo=None)], module level; the value is
    the argument after the calls. *)
Definition turn_physical_on_all (Pot : PotArg) (ro vo : option (float + Quantity))
  : unit_result PotArg :=
  match Pot with
  | PotList ps => ubind (turn_on_each ps ro vo) (fun ps' => Done (PotList ps'))
  | Instance p => ubind (turn_physical_on p ro vo) (fun p' => Done (Instance p'))
  end.

End Astropy.

(** [turn_physical_off(Pot)], module level; the value is the argument
    after the calls. *)
Definition turn_physical_off_all (Pot : PotArg) : PotArg :=
  match Pot with
  | PotList ps => PotList (map turn_physical_off ps)
  | Instance p => Instance (turn_physical_off p)
  end.

End PotentialSetup.

(** ** Potential.py: the vertical frequency *)

Module Kinematic.

Import Potential.

(** [Potential.verticalfreq] *)
Definition verticalfreq_method (self : Potential) (R : float) : result float :=
  d <- z2deriv self R 0 (Some 0) 0 ;; Ok (sqrt d).

(** [verticalfreq], module level, on an instance or a list of instances. *)
Definition verticalfreq (Pot : PotArg) (R : float) : result float :=
  match Pot with
  | Instance p => verticalfreq_method p R
  | PotList _ => d <- evaluatez2derivs Pot R 0 None 0 ;; Ok (sqrt d)
  end.

End Kinematic.

(** ** planarOrbit.py: the constructors *)

Module planarOrbitInit.

Import planarOrbit.

(** [planarROrbit.__init__(self,vxvv=[1.,0.,1.])] *)
Definition planarROrbit_init (vxvv : list float) : planarOrbitTop :=
  mkOrbit vxvv None None None.

(** [planarOrbit.__init__(self,vxvv=[1.,0.,1.,0.])] *)
Definition planarOrbit_init (vxvv : list float) : result planarOrbitTop :=
  if (length vxvv =? 3)%nat then
    Raise (ValueError
      "You only provided R,vR, & vT, but not phi; you probably want planarROrbit")
  else Ok (mkOrbit vxvv None None None).

(** [planarOrbitTop.zmax] *)
Definition zmax (self : planarOrbitTop) : result float :=
  Raise (AttributeError "planarOrbit does not have a zmax").

End planarOrbitInit.

(** ** SCFPotential.py: the radial map and the spherical coefficients *)

Module SCFCoefficients.

Import SCFPotential.

(** [xiToR(xi, a =1)] *)
Definition xiToR (xi a : float) : float := a * ((1 + xi) / (1 - xi)).

(** The Gegenbauer polynomials by their three-term recurrence, as the
    pair [(C_n, C_(n+1))]: [C_0 = 1], [C_1 = 2 alpha xi] and
    [C_(n+1) = (2 (n + alpha) xi C_n - (n + 2 alpha - 1) C_(n-1)) / (n + 1)]. *)
Fixpoint gegenbauer_pair (alpha xi : float) (n : nat) : float * float :=
  match n with
  | O => (1, 2 * alpha * xi)
  | S k =>
      let p := gegenbauer_pair alpha xi k in
      (snd p,
       / (INR (S k) + 1) *
       (2 * (INR (S k) + alpha) * xi * snd p
        - (INR (S k) + 2 * alpha - 1) * fst p))
  end.

Definition gegenbauer (alpha xi : float) (n : nat) : float :=
  fst (gegenbauer_pair alpha xi n).

Section Fitting.

(** [scipy.special.eval_gegenbauer(n,alpha,x)] and the value [[0]] of
    [scipy.integrate.quad(func,a,b)]. *)
Variable eval_gegenbauer : nat -> float -> float -> float.
Variable quad : (float -> float) -> float -> float -> float.

(** The integrand of [compute_coeffs_spherical] at radial order [n];
    [xiToR] is called with its default [a = 1]. *)
Definition integrand (dens : float -> float) (n : nat) (xi : float) : float :=
  let r := xiToR xi 1 in
  dens r * (1 + xi) ^ 2 * / (1 - xi) ^ 3 * eval_gegenbauer n (3 / 2) xi.

(** The factor [K] of [compute_coeffs_spherical] at radial order [n]. *)
Definition K_spherical (n : nat) : float :=
  16 * PI * (INR n + 3 / 2)
  / ((INR n + 2) * (INR n + 1) * (1 + INR n * (INR n + 3) / 2)).

(** [compute_coeffs_spherical(dens, N)]: the pair [(Acos, Asin)] of
    [N x 1 x 1] arrays. *)
Definition compute_coeffs_spherical (dens : float -> float) (N : nat)
  : ndarray3 * ndarray3 :=
  let Acos :=
    fold_left (fun (A : table3) n =>
      fun n' l' m' =>
        if (n' =? n)%nat && (l' =? 0)%nat && (m' =? 0)%nat
        then K_spherical n * quad (integrand dens n) (-1) 1
        else A n' l' m')
      (seq 0 N) zeros3 in
  (mkArray3 (N, 1, 1)%nat Acos, mkArray3 (N, 1, 1)%nat zeros3).

End Fitting.

End SCFCoefficients.

(** ** Further concrete inputs *)

Module MoreExamples.

Import planarOrbit.

(** An integrated orbit whose radii were cached by an earlier diagnostic. *)
Definition cached_orbit : planarOrbitTop :=
  mkOrbit [1; 0; 1] (Some [0; 1]) (Some [[1; 0; 1]; [2; 0; 1 / 2]]) (Some [1; 4]).

Definition project (pot : unit) : unit := tt.

Import Potential.

(** The harmonic field [Phi = (R^2 + z^2)/2]: spherical, with forces
    [-R] and [-z] and second derivatives 1. *)
Definition harmonic : Potential.Potential :=
  mkPotential 1 3 true false false false 8 false 220 false
    (Some (fun R z phi t => Some ((R ^ 2 + z ^ 2) / 2)))
    (Some (fun R z phi t => - R))
    (Some (fun R z phi t => - z))
    None
    (Some (fun R z phi t => 1))
    (Some (fun R z phi t => 1))
    (Some (fun R z phi t => 0))
    None None None.

(** A non-axisymmetric field with forces and second derivatives that
    depend on the azimuth. *)
Definition lopsided : Potential.Potential :=
  mkPotential 1 3 true true false false 8 false 220 false
    None
    (Some (fun R z phi t => - R))
    (Some (fun R z phi t => - z))
    None
    (Some (fun R z phi t => 1))
    (Some (fun R z phi t => match phi with Some p => 1 + p ^ 2 | None => 1 end))
    None None None None.

(** *** Binary64 inputs *)

(** A stand-in for libm's [pow] at an integral exponent: the repeated
    product. *)
Fixpoint pow_product (x : PrimFloat.float) (n : nat) : PrimFloat.float :=
  match n with
  | O => 1%float
  | S k => PrimFloat.mul x (pow_product x k)
  end.

(** Explicit Euler steps between consecutive requested times, over any
    arithmetic: a stand-in for [odeint] with the same interface. *)
Fixpoint euler_from_any {num : Type} (A : Arith.ops num)
  (f : list num -> num -> list num) (y : list num) (s : num) (ts : list num)
  : list (list num) :=
  match ts with
  | [] => []
  | s' :: rest =>
      let y' := map (fun p => Arith.add A (fst p) (Arith.mul A (Arith.sub A s' s) (snd p)))
                  (combine y (f y s)) in
      y' :: euler_from_any A f y' s' rest
  end.

Definition euler_odeint_any {num : Type} (A : Arith.ops num)
  (f : list num -> num -> list num) (y0 : list num) (ts : list num) (rtol : num)
  : list (list num) :=
  match ts with
  | [] => []
  | s0 :: rest => y0 :: euler_from_any A f y0 s0 rest
  end.

(** The planar field without force. *)
Definition free_Rforce (R : PrimFloat.float) (pot : unit) (phi : option PrimFloat.float)
  (t : PrimFloat.float) : PrimFloat.float := 0%float.

(** The radius-only integrator in binary64, on the free field, with the
    Euler stand-in; the tolerance is the binary64 value of [1e-8]. *)
Definition _integrateROrbit64 : list PrimFloat.float -> unit -> list PrimFloat.float
                                -> result (list (list PrimFloat.float)) :=
  Generic._integrateROrbit PrimFloat.float Arith.binary64 pow_product
    0x1.5798ee2308c3ap-27%float unit free_Rforce (euler_odeint_any Arith.binary64).

(** A binary64 potential that is constant in space.  Its class defines
    [_evaluate] only, so that [_call_nodecorator] returns [_amp] times the
    constant at [dR = dphi = 0], the defaults of the azimuthal methods
    where they apply, and the errors of the missing radial methods. *)
Record constant64 : Type := mkConstant64 {
  amp64 : PrimFloat.float;
  value64 : PrimFloat.float
}.

Definition constant64_call (p : constant64) (R z : PrimFloat.float)
  (phi : option PrimFloat.float) (t : PrimFloat.float) (dR dphi : Z)
  : result (option PrimFloat.float) :=
  if ((dR =? 0) && (dphi =? 0))%Z then
    Ok (Some (PrimFloat.mul (amp64 p) (value64 p)))
  else if ((dR =? 1) && (dphi =? 0))%Z then Raise (PotentialError msg_Rforce)
  else if ((dR =? 0) && (dphi =? 1))%Z then Ok (Some (PrimFloat.opp 0%float))
  else if ((dR =? 2) && (dphi =? 0))%Z then Raise (PotentialError msg_R2deriv)
  else if ((dR =? 0) && (dphi =? 2))%Z then Ok (Some 0%float)
  else if ((dR =? 1) && (dphi =? 1))%Z then Ok (Some 0%float)
  else Raise (NotImplementedError msg_higher_order).

(** [_evaluatePotentials] in binary64, on such potentials. *)
Definition _evaluatePotentials64 :=
  Generic._evaluatePotentials PrimFloat.float Arith.binary64 constant64
    (fun _ => false) constant64_call.

(** Three of them, of values [1e16], [1] and [-1e16]. *)
Definition big : constant64 := mkConstant64 1%float 1e16%float.
Definition unit64 : constant64 := mkConstant64 1%float 1%float.
Definition minus_big : constant64 := mkConstant64 1%float (-1e16)%float.

End MoreExamples.

(** * Properties *)

(** ** Arrays *)

Lemma col_well_shaped_any {T : Type} (d : T) (j k : nat) (A : list (list T)) :
  Forall (fun row => length row = k) A -> (j < k)%nat ->
  nu.col j A = Ok (map (fun row => nth j row d) A).
Proof.
  intros HA Hj. induction HA as [|row rest Hrow _ IH]; simpl.
  - reflexivity.
  - unfold nu.getitem.
    destruct (nth_error row j) as [x|] eqn:E.
    + simpl. rewrite IH. simpl.
      rewrite (nth_error_nth _ _ d E). reflexivity.
    + apply nth_error_None in E. lia.
Qed.

Lemma col_well_shaped (j k : nat) (A : list (list float)) :
  Forall (fun row => length row = k) A -> (j < k)%nat ->
  nu.col j A = Ok (map (fun row => nth j row 0) A).
Proof. apply col_well_shaped_any. Qed.

Lemma nth_error_row_any {T : Type} (d : T) (A : list (list T)) (i j : nat)
  (row : list T) :
  nth_error A i = Some row ->
  nth_error (map (fun r => nth j r d) A) i = Some (nth j row d).
Proof. intros H. rewrite nth_error_map, H. reflexivity. Qed.

Lemma broadcast_to_same {T : Type} (n : nat) (v : list T) :
  length v = n -> nu.broadcast_to n v = Ok v.
Proof.
  intros H. unfold nu.broadcast_to.
  rewrite (proj2 (Nat.eqb_eq _ _) H). reflexivity.
Qed.

Lemma rows3_length {T : Type} (a b c : list T) :
  length b = length a -> length c = length a ->
  length (rows3 a b c) = length a.
Proof.
  revert b c. induction a as [|x a IH]; intros [|y b] [|z c]; simpl;
    try discriminate; auto.
Qed.

Lemma rows3_nth_error {T : Type} (a b c : list T) (i : nat) (x y z : T) :
  nth_error a i = Some x -> nth_error b i = Some y -> nth_error c i = Some z ->
  nth_error (rows3 a b c) i = Some [x; y; z].
Proof.
  revert b c i. induction a as [|x0 a IH]; intros [|y0 b] [|z0 c] [|i]; simpl;
    try discriminate.
  - intros. congruence.
  - intros. now apply IH.
Qed.

Lemma rows4_length (a b c d : list float) :
  length b = length a -> length c = length a -> length d = length a ->
  length (rows4 a b c d) = length a.
Proof.
  revert b c d. induction a as [|x a IH]; intros [|y b] [|z c] [|w d]; simpl;
    try discriminate; auto.
Qed.

Lemma rows4_nth_error (a b c d : list float) (i : nat) (x y z w : float) :
  nth_error a i = Some x -> nth_error b i = Some y ->
  nth_error c i = Some z -> nth_error d i = Some w ->
  nth_error (rows4 a b c d) i = Some [x; y; z; w].
Proof.
  revert b c d i.
  induction a as [|x0 a IH]; intros [|y0 b] [|z0 c] [|w0 d] [|i]; simpl;
    try discriminate.
  - intros. congruence.
  - intros. now apply IH.
Qed.

Lemma combine_nth_error {A B : Type} (a : list A) (b : list B) (i : nat) (x : A) (y : B) :
  nth_error a i = Some x -> nth_error b i = Some y ->
  nth_error (combine a b) i = Some (x, y).
Proof.
  revert b i. induction a as [|x0 a IH]; intros [|y0 b] [|i]; simpl;
    try discriminate.
  - intros. congruence.
  - intros. now apply IH.
Qed.

(** ** planarOrbit.py: the diagnostics *)

(** Decide the [Rmax] and [Rmin] of numerals. *)
Ltac minmax :=
  unfold Rmax, Rmin; repeat (destruct (Rle_dec _ _)); try lra.

Lemma fold_Rmax_nonneg (xs : list float) (x : float) :
  0 <= x -> 0 <= fold_left Rmax xs x.
Proof.
  revert x. induction xs as [|y xs IH]; intros x Hx; simpl; [exact Hx|].
  apply IH. unfold Rmax. destruct (Rle_dec x y); lra.
Qed.

Lemma fold_Rmax_squares (xs : list float) (x : float) :
  0 <= x -> Forall (fun r => 0 <= r) xs ->
  fold_left Rmax (map (fun r => r ^ 2) xs) (x ^ 2) = fold_left Rmax xs x ^ 2.
Proof.
  intros Hx Hxs. revert x Hx.
  induction Hxs as [|y xs Hy _ IH]; intros x Hx; simpl; [reflexivity|].
  replace (Rmax (x * (x * 1)) (y * (y * 1))) with (Rmax x y ^ 2).
  - apply IH. unfold Rmax. destruct (Rle_dec x y); lra.
  - unfold Rmax. destruct (Rle_dec x y); destruct (Rle_dec _ _); simpl; nra.
Qed.

Lemma fold_Rmin_squares (xs : list float) (x : float) :
  0 <= x -> Forall (fun r => 0 <= r) xs ->
  fold_left Rmin (map (fun r => r ^ 2) xs) (x ^ 2) = fold_left Rmin xs x ^ 2.
Proof.
  intros Hx Hxs. revert x Hx.
  induction Hxs as [|y xs Hy _ IH]; intros x Hx; simpl; [reflexivity|].
  replace (Rmin (x * (x * 1)) (y * (y * 1))) with (Rmin x y ^ 2).
  - apply IH. unfold Rmin. destruct (Rle_dec x y); lra.
  - unfold Rmin. destruct (Rle_dec x y); destruct (Rle_dec _ _); simpl; nra.
Qed.

(** What the diagnostics return in general, on a freshly integrated orbit
    with non-negative sampled radii: the squares of [r_max] and [r_min], and
    the quotient formed from the squares. *)
Lemma diagnostics_in_squares (self : planarOrbit.planarOrbitTop) (rmax rmin : float) :
  planarOrbit.rs self = None ->
  (exists c, planarOrbit.sampled_radii self = Ok c /\ Forall (fun r => 0 <= r) c) ->
  planarOrbit.r_max self = Ok rmax -> planarOrbit.r_min self = Ok rmin ->
  value (planarOrbit.rap self) = Ok (rmax ^ 2) /\
  value (planarOrbit.rperi self) = Ok (rmin ^ 2) /\
  value (planarOrbit.e self) = Ok ((rmax ^ 2 - rmin ^ 2) / (rmax ^ 2 + rmin ^ 2)) /\
  planarOrbit.planarOrbit_e self = Ok ((rmax ^ 2 - rmin ^ 2) / (rmax ^ 2 + rmin ^ 2)).
Proof.
  intros Hrs [c [Hc Hpos]].
  unfold planarOrbit.r_max, planarOrbit.r_min, planarOrbit.rap, planarOrbit.rperi,
    planarOrbit.e, planarOrbit.planarOrbit_e, planarOrbit.ensure_rs,
    planarOrbit.col0_squared.
  rewrite Hrs, Hc. unfold planarOrbit.sampled_radii in Hc.
  destruct (planarOrbit.orbit self) as [orb|]; [|discriminate].
  rewrite Hc. cbn [bind].
  destruct c as [|x xs]; [discriminate|].
  inversion Hpos as [|? ? Hx Hxs]; subst.
  cbn [nu.amax nu.amin bind map fst snd value].
  intros Hmax Hmin. injection Hmax as <-. injection Hmin as <-.
  change (x * (x * 1)) with (x ^ 2).
  rewrite (fold_Rmax_squares xs x Hx Hxs), (fold_Rmin_squares xs x Hx Hxs).
  repeat split.
Qed.

(** C1.  On an orbit sampled at radii 1 and 2, so that [r_max = 2] and
    [r_min = 1], the apocenter diagnostic [rap] returns 4, not 2; the
    pericenter diagnostic [rperi] returns 1; and both eccentricity
    diagnostics return [3/5], not [(2-1)/(2+1) = 1/3]: the diagnostics are
    taken over the squares of the sampled radii. *)
Theorem diagnostics_use_squared_radii :
  planarOrbit.r_max Examples.orbit_1_2 = Ok 2 /\
  planarOrbit.r_min Examples.orbit_1_2 = Ok 1 /\
  value (planarOrbit.rap Examples.orbit_1_2) = Ok 4 /\
  value (planarOrbit.rperi Examples.orbit_1_2) = Ok 1 /\
  value (planarOrbit.e Examples.orbit_1_2) = Ok (3 / 5) /\
  planarOrbit.planarOrbit_e Examples.orbit_1_2 = Ok (3 / 5) /\
  (2 - 1) / (2 + 1) <> 3 / 5.
Proof.
  repeat split; try (cbn; f_equal; minmax; field_simplify; lra); lra.
Qed.

(** ** planarOrbit.py: the radius-only mode, over any arithmetic *)

Section RadiusOnlyMode.

Variable num : Type.
Variable A : Arith.ops num.
Variable powf : num -> nat -> num.
Variable rtol : num.
Variable planarPotential : Type.
Variable evaluateplanarRforces : num -> planarPotential -> option num -> num -> num.
Variable odeint : (list num -> num -> list num) -> list num -> list num -> num
                  -> list (list num).

Local Abbreviation _REOM :=
  (Generic._REOM num A powf planarPotential evaluateplanarRforces).
Local Abbreviation _integrateROrbit :=
  (Generic._integrateROrbit num A powf rtol planarPotential evaluateplanarRforces odeint).

(** C3.  Radius-only mode, from the initial state [(R0,vR0,vT0)], with an
    ODE primitive that returns one two-entry row per requested time, in
    any arithmetic.  The angular momentum [L = R0*vT0] is fixed before the
    integration and enters the right-hand side only as the constant
    [L**2.]; the right-hand side at state [(R,vR)] is
    [(vR, L**2./R**3. + radialForce(R))]; the trajectory has one row per
    time, and the row at a time where the primitive returned [(Ri,vRi)]
    is [(Ri, vRi, L/Ri)], with the quotient as the arithmetic forms it. *)
Theorem integrateROrbit_reconstructs_tangential_velocity
  (R0 vR0 vT0 : num) (pot : planarPotential) (ts : list num) :
  let L := Arith.mul A R0 vT0 in
  let rhs := fun y s => _REOM y s pot (powf L 2) in
  let intOut := odeint rhs [R0; vR0] ts rtol in
  Generic.well_shaped num (length ts) 2 intOut ->
  (forall R vR s,
      rhs [R; vR] s
      = [vR; Arith.add A (Arith.div A (powf L 2) (powf R 3))
               (evaluateplanarRforces R pot None s)]) /\
  exists out,
    _integrateROrbit [R0; vR0; vT0] pot ts = Ok out /\
    length out = length ts /\
    forall i Ri vRi,
      nth_error intOut i = Some [Ri; vRi] ->
      nth_error out i = Some [Ri; vRi; Arith.div A L Ri].
Proof.
  intros L rhs intOut [Hlen Hrows]. split; [reflexivity|].
  unfold Generic._integrateROrbit. cbn [nu.getitem nth_error bind].
  fold L. fold rhs. fold intOut.
  rewrite (col_well_shaped_any (Arith.zero A) 0 2 intOut Hrows) by lia.
  cbn [bind]. rewrite broadcast_to_same by (rewrite length_map; exact Hlen).
  cbn [bind]. rewrite (col_well_shaped_any (Arith.zero A) 1 2 intOut Hrows) by lia.
  cbn [bind]. rewrite broadcast_to_same by (rewrite length_map; exact Hlen).
  cbn [bind]. eexists. split; [reflexivity|]. split.
  - rewrite rows3_length; rewrite ?length_map; congruence.
  - intros i Ri vRi Hi.
    apply rows3_nth_error.
    + apply (nth_error_row_any _ _ _ 0%nat _ Hi).
    + apply (nth_error_row_any _ _ _ 1%nat _ Hi).
    + rewrite nth_error_map, (nth_error_row_any _ _ _ 0%nat _ Hi). reflexivity.
Qed.

End RadiusOnlyMode.

(** At the real numbers the integrator over any arithmetic is the one of
    the module [planarOrbit]. *)
Lemma integrateROrbit_at_real (planarPotential : Type)
  (evaluateplanarRforces : float -> planarPotential -> option float -> float -> float)
  (odeint : (list float -> float -> list float) -> list float -> list float -> float
            -> list (list float))
  (vxvv : list float) (pot : planarPotential) (ts : list float) :
  Generic._integrateROrbit float Arith.real pow planarOrbit.rtol planarPotential
    evaluateplanarRforces odeint vxvv pot ts
  = planarOrbit._integrateROrbit planarPotential evaluateplanarRforces odeint vxvv pot ts.
Proof. reflexivity. Qed.

(** In exact arithmetic the reconstructed velocity conserves the angular
    momentum wherever the radius is not zero. *)
Lemma reconstruction_exact_at_real (L Ri : float) :
  Ri <> 0 -> Arith.mul Arith.real Ri (Arith.div Arith.real L Ri) = L.
Proof. intros H. cbn. field. exact H. Qed.

(** In binary64 it does not.  From [(R0,vR0,vT0) = (1,48,1)] on the free
    field, one Euler step of length 1 gives the radius 49; the velocity
    reported there is the float [1/49], and [49 * (1/49)] is the float
    below 1. *)
Lemma angular_momentum_not_conserved_in_binary64 :
  MoreExamples._integrateROrbit64 [1; 48; 1]%float tt [0; 1]%float
  = Ok [[1; 48; 1]; [49; 49; PrimFloat.div (PrimFloat.mul 1 1) 49]]%float /\
  PrimFloat.mul 49 (PrimFloat.div (PrimFloat.mul 1 1) 49) = 0x1.fffffffffffffp-1%float /\
  PrimFloat.mul 49 (PrimFloat.div (PrimFloat.mul 1 1) 49) <> PrimFloat.mul 1 1.
Proof.
  split; [vm_compute; reflexivity|]. split; [vm_compute; reflexivity|].
  intros H.
  assert (E : PrimFloat.eqb (PrimFloat.mul 49 (PrimFloat.div (PrimFloat.mul 1 1) 49))
                (PrimFloat.mul 1 1) = true)
    by (rewrite H; vm_compute; reflexivity).
  vm_compute in E. discriminate E.
Qed.

(** The statement on that run. *)
Lemma integrateROrbit_reconstructs_tangential_velocity_witness :
  exists out,
    MoreExamples._integrateROrbit64 [1; 48; 1]%float tt [0; 1]%float = Ok out /\
    length out = 2%nat /\
    nth_error out 1 = Some [49; 49; PrimFloat.div (PrimFloat.mul 1 1) 49]%float.
Proof.
  assert (H : Generic.well_shaped PrimFloat.float (length [0; 1]%float) 2
                (MoreExamples.euler_odeint_any Arith.binary64
                   (fun y s =>
                      Generic._REOM PrimFloat.float Arith.binary64
                        MoreExamples.pow_product unit MoreExamples.free_Rforce y s tt
                        (MoreExamples.pow_product (PrimFloat.mul 1 1) 2))
                   [1; 48]%float [0; 1]%float 0x1.5798ee2308c3ap-27%float)).
  { split; [reflexivity|]. cbn. repeat constructor. }
  destruct (integrateROrbit_reconstructs_tangential_velocity PrimFloat.float
              Arith.binary64 MoreExamples.pow_product 0x1.5798ee2308c3ap-27%float
              unit MoreExamples.free_Rforce (MoreExamples.euler_odeint_any Arith.binary64)
              1%float 48%float 1%float tt [0; 1]%float H)
    as [_ [out [E [Hl Hrow]]]].
  exists out. split; [exact E|]. split; [exact Hl|].
  apply (Hrow 1%nat 49%float 49%float). vm_compute. reflexivity.
Defined.

(** ** planarOrbit.py: the full planar mode *)

Section IntegrationModes.

Variable planarPotential : Type.
Variable evaluateplanarRforces : float -> planarPotential -> option float -> float -> float.
Variable evaluateplanarphiforces : float -> planarPotential -> option float -> float -> float.
Variable odeint : (list float -> float -> list float) -> list float -> list float -> float
                  -> list (list float).

Local Abbreviation _REOM := (planarOrbit._REOM planarPotential evaluateplanarRforces).
Local Abbreviation _EOM :=
  (planarOrbit._EOM planarPotential evaluateplanarRforces evaluateplanarphiforces).
Local Abbreviation _integrateROrbit :=
  (planarOrbit._integrateROrbit planarPotential evaluateplanarRforces odeint).
Local Abbreviation _integrateOrbit :=
  (planarOrbit._integrateOrbit planarPotential evaluateplanarRforces
     evaluateplanarphiforces odeint).

Lemma nth_error_row (A : list (list float)) (i j : nat) (row : list float) :
  nth_error A i = Some row ->
  nth_error (map (fun r => nth j r 0) A) i = Some (nth j row 0).
Proof. intros H. rewrite nth_error_map, H. reflexivity. Qed.

(** C4.  Full planar mode, from the initial state [(R0,vR0,vT0,phi0)],
    with an ODE primitive that returns one four-entry row per requested
    time.  The right-hand side at state [(R,vR,phi,w)], [w] standing for
    [vT/R], is [(vR, (R^2 w)^2/R^3 + radialForce(R,phi), w,
    (1/R^2)(azimuthalForce(R,phi) - 2 R vR w))].  From [R0 <> 0] the state
    handed to the primitive is [(R0, vR0, phi0, vT0/R0)], and the row of
    the trajectory at a time where the primitive returned
    [(Ri,vRi,phi_i,w_i)] is [(Ri, vRi, Ri*w_i, phi_i)].  At [R0 = 0] the
    quotient [vT0/R0] raises [ZeroDivisionError] and the primitive is not
    called. *)
Theorem integrateOrbit_full_planar
  (R0 vR0 vT0 phi0 : float) (pot : planarPotential) (ts : list float) :
  let rhs := fun y s => _EOM y s pot in
  let intOut := odeint rhs [R0; vR0; phi0; vT0 / R0] ts planarOrbit.rtol in
  (forall R vR phi w s,
      rhs [R; vR; phi; w] s =
      [ vR;
        (R ^ 2 * w) ^ 2 / R ^ 3 + evaluateplanarRforces R pot (Some phi) s;
        w;
        1 / R ^ 2 * (evaluateplanarphiforces R pot (Some phi) s - 2 * R * vR * w) ]) /\
  (R0 = 0 ->
   _integrateOrbit [R0; vR0; vT0; phi0] pot ts = Raise (ZeroDivisionError msg_div)) /\
  (R0 <> 0 -> planarOrbit.well_shaped (length ts) 4 intOut ->
   exists out,
     _integrateOrbit [R0; vR0; vT0; phi0] pot ts = Ok out /\
     length out = length ts /\
     forall i Ri vRi phii wi,
       nth_error intOut i = Some [Ri; vRi; phii; wi] ->
       nth_error out i = Some [Ri; vRi; Ri * wi; phii]).
Proof.
  intros rhs intOut. split; [reflexivity|]. split.
  - intros H0. unfold planarOrbit._integrateOrbit, truediv.
    cbn [nu.getitem nth_error bind].
    destruct (Req_dec_T R0 0) as [_|Hne]; [reflexivity | contradiction].
  - intros H0 [Hlen Hrows].
    unfold planarOrbit._integrateOrbit, truediv. cbn [nu.getitem nth_error bind].
    destruct (Req_dec_T R0 0) as [E|_]; [contradiction|]. cbn [bind].
    fold rhs. fold intOut.
    rewrite (col_well_shaped 0 4 intOut Hrows) by lia.
    cbn [bind]. rewrite broadcast_to_same by (rewrite length_map; exact Hlen).
    cbn [bind]. rewrite (col_well_shaped 1 4 intOut Hrows) by lia.
    cbn [bind]. rewrite broadcast_to_same by (rewrite length_map; exact Hlen).
    cbn [bind]. rewrite (col_well_shaped 2 4 intOut Hrows) by lia.
    cbn [bind]. rewrite broadcast_to_same by (rewrite length_map; exact Hlen).
    cbn [bind]. rewrite (col_well_shaped 3 4 intOut Hrows) by lia.
    cbn [bind]. rewrite broadcast_to_same by (rewrite length_map; exact Hlen).
    cbn [bind]. eexists. split; [reflexivity|]. split.
    + rewrite rows4_length;
        rewrite ?length_map, ?length_combine, ?length_map, ?Hlen;
        try reflexivity; try lia.
    + intros i Ri vRi phii wi Hi.
      apply rows4_nth_error.
      * apply (nth_error_row _ _ 0%nat _ Hi).
      * apply (nth_error_row _ _ 1%nat _ Hi).
      * rewrite nth_error_map.
        rewrite (combine_nth_error _ _ i Ri wi
                   (nth_error_row _ _ 0%nat _ Hi) (nth_error_row _ _ 3%nat _ Hi)).
        reflexivity.
      * apply (nth_error_row _ _ 2%nat _ Hi).
Qed.

End IntegrationModes.

(** The full planar statement on the same orbit, started at azimuth 0,
    and on the orbit started at the centre. *)
Lemma integrateOrbit_full_planar_witness :
  (exists out,
     planarOrbit._integrateOrbit unit Examples.kepler_Rforce Examples.kepler_phiforce
       Examples.euler_odeint [1; 0; 1; 0] tt [0; 1] = Ok out /\
     length out = 2%nat) /\
  planarOrbit._integrateOrbit unit Examples.kepler_Rforce Examples.kepler_phiforce
    Examples.euler_odeint [0; 0; 1; 0] tt [0; 1] = Raise (ZeroDivisionError msg_div).
Proof.
  assert (H : planarOrbit.well_shaped (length [0; 1]) 4
                (Examples.euler_odeint
                   (fun y s =>
                      planarOrbit._EOM unit Examples.kepler_Rforce
                        Examples.kepler_phiforce y s tt)
                   [1; 0; 0; 1 / 1] [0; 1] planarOrbit.rtol)).
  { split; [reflexivity|]. cbn. repeat constructor. }
  split.
  - destruct (integrateOrbit_full_planar unit Examples.kepler_Rforce
                Examples.kepler_phiforce Examples.euler_odeint 1 0 1 0 tt [0; 1])
      as [_ [_ Hok]].
    destruct (Hok ltac:(lra) H) as [out [E [Hl _]]].
    exists out. split; [exact E | exact Hl].
  - exact (proj1 (proj2 (integrateOrbit_full_planar unit Examples.kepler_Rforce
                           Examples.kepler_phiforce Examples.euler_odeint
                           0 0 1 0 tt [0; 1])) eq_refl).
Defined.

(** ** Potential.py: defaults of the azimuthal methods *)

Section PotentialMethods.

Import Potential.

(** C7.  Each of the azimuthal force, the second azimuthal derivative and
    the mixed radial-azimuthal derivative, on a field that does not define
    the corresponding raw method ([_phiforce], [_phi2deriv], [_Rphideriv]):
    when the field is axisymmetric the call returns exactly 0 at every
    point; when it is non-axisymmetric the call raises [PotentialError],
    the "not implemented" failure. *)
Theorem azimuthal_defaults (self : Potential) (R z : float) (phi : option float)
  (t : float) :
  (_phiforce self = None ->
     (isNonAxi self = false ->
        phiforce self R z phi t = Ok 0 /\
        _phiforce_nodecorator self R z phi t = Ok 0) /\
     (isNonAxi self = true ->
        phiforce self R z phi t = Raise (PotentialError msg_phiforce_nonaxi) /\
        _phiforce_nodecorator self R z phi t
        = Raise (PotentialError msg_phiforce_nonaxi))) /\
  (_phi2deriv self = None ->
     (isNonAxi self = false -> phi2deriv self R z phi t = Ok 0) /\
     (isNonAxi self = true ->
        phi2deriv self R z phi t = Raise (PotentialError msg_phiforce_nonaxi))) /\
  (_Rphideriv self = None ->
     (isNonAxi self = false -> Rphideriv self R z phi t = Ok 0) /\
     (isNonAxi self = true ->
        Rphideriv self R z phi t = Raise (PotentialError msg_phiforce_nonaxi))).
Proof.
  unfold phiforce, _phiforce_nodecorator, phi2deriv, Rphideriv.
  split; [|split]; intros ->; split; intros ->; repeat split.
Qed.

(** A field that does define the raw method is not defaulted: the call
    returns the amplitude times the raw value, whatever [isNonAxi] is. *)
Lemma phiforce_implemented (self : Potential) (f : raw) (R z : float)
  (phi : option float) (t : float) :
  _phiforce self = Some f ->
  _phiforce_nodecorator self R z phi t = Ok (_amp self * f R z phi t).
Proof. intros H. unfold _phiforce_nodecorator. rewrite H. reflexivity. Qed.

(** ** Potential.py: normalize *)

(** C10.  When the radial force at [(R=1, z=0)] evaluates to [F] with the
    amplitude the field has before the call, [normalize(norm)] succeeds,
    the new amplitude is the old one times [norm / |F|], and every other
    attribute is the one the field had: [ro], [vo], the two unit-output
    flags, the capability flags, and every raw method, in which the
    structural parameters live. *)
Theorem normalize_rescales_amplitude_only (self : Potential) (norm t F : float) :
  Rforce self 1 0 (Some 0) t = Ok F ->
  exists self',
    normalize self norm t = Ok self' /\
    _amp self' = _amp self * (norm / Rabs F) /\
    _ro self' = _ro self /\ _vo self' = _vo self /\
    _roSet self' = _roSet self /\ _voSet self' = _voSet self /\
    dim self' = dim self /\ isRZ self' = isRZ self /\
    isNonAxi self' = isNonAxi self /\
    hasC self' = hasC self /\ hasC_dxdv self' = hasC_dxdv self /\
    _evaluate self' = _evaluate self /\ _Rforce self' = _Rforce self /\
    _zforce self' = _zforce self /\ _phiforce self' = _phiforce self /\
    _R2deriv self' = _R2deriv self /\ _z2deriv self' = _z2deriv self /\
    _Rzderiv self' = _Rzderiv self /\ _phi2deriv self' = _phi2deriv self /\
    _Rphideriv self' = _Rphideriv self /\ _dens self' = _dens self /\
    self' = set_amp self (_amp self' ).
Proof.
  intros HF. unfold normalize. rewrite HF. cbn [bind].
  eexists. split; [reflexivity|]. cbn. repeat split.
Qed.

(** The force [F] the rescaling divides by is the old amplitude times the
    raw radial force. *)
Lemma Rforce_value (self : Potential) (f : raw) (R z : float) (phi : option float)
  (t : float) :
  _Rforce self = Some f -> Rforce self R z phi t = Ok (_amp self * f R z phi t).
Proof. intros H. unfold Rforce, _Rforce_nodecorator. rewrite H. reflexivity. Qed.

(** Without a raw radial force there is nothing to rescale by: the call
    raises and no field is produced. *)
Lemma normalize_without_Rforce (self : Potential) (norm t : float) :
  _Rforce self = None ->
  normalize self norm t = Raise (PotentialError msg_Rforce).
Proof.
  intros H. unfold normalize, Rforce, _Rforce_nodecorator. rewrite H. reflexivity.
Qed.

End PotentialMethods.

(** The defaults on the axisymmetric field [flat] and the failure on the
    non-axisymmetric field [bar], neither of which defines a raw azimuthal
    method. *)
Lemma azimuthal_defaults_witness :
  (Potential.phiforce Examples.flat 1 0 (Some 0) 0 = Ok 0 /\
   Potential.phi2deriv Examples.flat 1 0 (Some 0) 0 = Ok 0 /\
   Potential.Rphideriv Examples.flat 1 0 (Some 0) 0 = Ok 0) /\
  (Potential.phiforce Examples.bar 1 0 (Some 0) 0
   = Raise (PotentialError Potential.msg_phiforce_nonaxi) /\
   Potential.phi2deriv Examples.bar 1 0 (Some 0) 0
   = Raise (PotentialError Potential.msg_phiforce_nonaxi) /\
   Potential.Rphideriv Examples.bar 1 0 (Some 0) 0
   = Raise (PotentialError Potential.msg_phiforce_nonaxi)).
Proof.
  destruct (azimuthal_defaults Examples.flat 1 0 (Some 0) 0) as [F1 [F2 F3]].
  destruct (azimuthal_defaults Examples.bar 1 0 (Some 0) 0) as [B1 [B2 B3]].
  split; (split; [|split]).
  - exact (proj1 (proj1 (F1 eq_refl) eq_refl)).
  - exact (proj1 (F2 eq_refl) eq_refl).
  - exact (proj1 (F3 eq_refl) eq_refl).
  - exact (proj1 (proj2 (B1 eq_refl) eq_refl)).
  - exact (proj2 (B2 eq_refl) eq_refl).
  - exact (proj2 (B3 eq_refl) eq_refl).
Defined.

(** Rescaling [flat], whose radial force at [R=1] is [1 * - / 1]. *)
Lemma normalize_rescales_amplitude_only_witness :
  Potential.Rforce Examples.flat 1 0 (Some 0) 0 = Ok (1 * - / 1) /\
  exists self',
    Potential.normalize Examples.flat 2 0 = Ok self' /\
    Potential._amp self' = 1 * (2 / Rabs (1 * - / 1)).
Proof.
  split; [reflexivity|].
  destruct (normalize_rescales_amplitude_only Examples.flat 2 0 (1 * - / 1) eq_refl)
    as [self' [E [Ha _]]].
  exists self'. split; [exact E | exact Ha].
Defined.

(** ** Potential.py: the sum over a list, over any arithmetic *)

Section CompositeSum.

Variable num : Type.
Variable A : Arith.ops num.
Variable Potential : Type.
Variable isNonAxi : Potential -> bool.
Variable _call_nodecorator :
  Potential -> num -> num -> option num -> num -> Z -> Z -> result (option num).

Local Abbreviation PotArg := (Generic.PotArg Potential).
Local Abbreviation Instance := (Generic.Instance Potential).
Local Abbreviation PotList := (Generic.PotList Potential).
Local Abbreviation _evaluatePotentials :=
  (Generic._evaluatePotentials num A Potential isNonAxi _call_nodecorator).

Lemma sum_loop_opt_fold (member : Potential -> result (option num))
  (ps : list Potential) (vs : list num) (acc : num) :
  Forall2 (fun p v => member p = Ok (Some v)) ps vs ->
  Generic.sum_loop_opt num A Potential member ps acc
  = Ok (fold_left (Arith.add A) vs acc).
Proof.
  intros H. revert acc. induction H as [|p v ps vs Hp _ IH]; intros acc.
  - reflexivity.
  - cbn [Generic.sum_loop_opt fold_left]. rewrite Hp. cbn [bind]. apply IH.
Qed.

(** A member that evaluates on its own passes the gate. *)
Lemma member_evaluable (p : Potential) (R z : num) (phi : option num)
  (t : num) (dR dphi : Z) (v : num) :
  _evaluatePotentials (Instance p) R z phi t dR dphi = Ok (Some v) ->
  isNonAxi p && Potential.is_None phi = false /\
  _call_nodecorator p R z phi t dR dphi = Ok (Some v).
Proof.
  unfold Generic._evaluatePotentials. cbn [Generic._isNonAxi].
  destruct (isNonAxi p && Potential.is_None phi); [discriminate|]. auto.
Qed.

Lemma list_evaluable (ps : list Potential) (vs : list num) (R z : num)
  (phi : option num) (t : num) (dR dphi : Z) :
  Forall2 (fun p v => _evaluatePotentials (Instance p) R z phi t dR dphi = Ok (Some v))
    ps vs ->
  _evaluatePotentials (PotList ps) R z phi t dR dphi
  = Ok (Some (fold_left (Arith.add A) vs (Arith.zero A))).
Proof.
  intros H. unfold Generic._evaluatePotentials. cbn [Generic._isNonAxi].
  assert (G : negb (forallb (fun b => b) (map (fun p => negb (isNonAxi p)) ps))
              && Potential.is_None phi = false).
  { induction H as [|p v ps vs Hp _ IH]; [reflexivity|]. cbn [map forallb].
    apply member_evaluable in Hp. destruct Hp as [Hg _].
    destruct (isNonAxi p); cbn [negb andb] in *; [exact Hg | exact IH]. }
  rewrite G.
  assert (H' : Forall2 (fun p v => _call_nodecorator p R z phi t dR dphi = Ok (Some v))
                 ps vs).
  { clear G. induction H as [|p v ps vs Hp _ IH]; constructor; [|exact IH].
    apply member_evaluable in Hp. apply Hp. }
  rewrite (sum_loop_opt_fold _ _ _ _ H'). reflexivity.
Qed.

(** C5.  When every member of a list evaluates on its own at
    [(R,z,phi,t)], to the values [vs], evaluating the list at the same
    arguments gives the sum of [vs] taken from [0.] in the order of the
    list, in any arithmetic.  For two members of values [a] and [b] such
    that [0. + a = a], [0. + b = b] and [a + b = b + a], the list and the
    reordered list both give [a + b]. *)
Theorem composite_is_left_to_right_sum (ps : list Potential) (vs : list num)
  (R z : num) (phi : option num) (t : num) (dR dphi : Z) :
  Forall2 (fun p v => _evaluatePotentials (Instance p) R z phi t dR dphi = Ok (Some v))
    ps vs ->
  _evaluatePotentials (PotList ps) R z phi t dR dphi
  = Ok (Some (fold_left (Arith.add A) vs (Arith.zero A))) /\
  forall pa pb a b,
    ps = [pa; pb] -> vs = [a; b] ->
    Arith.add A (Arith.zero A) a = a -> Arith.add A (Arith.zero A) b = b ->
    Arith.add A a b = Arith.add A b a ->
    _evaluatePotentials (PotList [pa; pb]) R z phi t dR dphi
    = Ok (Some (Arith.add A a b)) /\
    _evaluatePotentials (PotList [pb; pa]) R z phi t dR dphi
    = Ok (Some (Arith.add A a b)).
Proof.
  intros H. split; [now apply list_evaluable|].
  intros pa pb a b -> -> Ha Hb Hab.
  inversion H as [|? ? ? ? HA Hrest]; subst.
  inversion Hrest as [|? ? ? ? HB _]; subst.
  split.
  - rewrite (list_evaluable [pa; pb] [a; b]) by (repeat constructor; assumption).
    cbn [fold_left]. now rewrite Ha.
  - rewrite (list_evaluable [pb; pa] [b; a]) by (repeat constructor; assumption).
    cbn [fold_left]. now rewrite Hb, Hab.
Qed.

End CompositeSum.

(** At the real numbers, on the class [Potential], the sum over any
    arithmetic is [_evaluatePotentials] of the module [Potential]. *)
Lemma evaluatePotentials_at_real (ps : list Potential.Potential) (R z : float)
  (phi : option float) (t : float) (dR dphi : Z) :
  Generic._evaluatePotentials float Arith.real Potential.Potential Potential.isNonAxi
    Potential._call_nodecorator (Generic.PotList Potential.Potential ps) R z phi t dR dphi
  = Potential._evaluatePotentials (Potential.PotList ps) R z phi t dR dphi.
Proof. reflexivity. Qed.

Lemma evaluatePotentials_instance_at_real (p : Potential.Potential) (R z : float)
  (phi : option float) (t : float) (dR dphi : Z) :
  Generic._evaluatePotentials float Arith.real Potential.Potential Potential.isNonAxi
    Potential._call_nodecorator (Generic.Instance Potential.Potential p) R z phi t dR dphi
  = Potential._evaluatePotentials (Potential.Instance p) R z phi t dR dphi.
Proof. reflexivity. Qed.

(** In binary64 the sum depends on the order of a list of three.  Each of
    [big], [unit64] and [minus_big] evaluates on its own, to [1e16], [1]
    and [-1e16]; the list [[big, unit64, minus_big]] evaluates to [0],
    because [1e16 + 1] rounds to [1e16], and the reordered list
    [[big, minus_big, unit64]] to [1]. *)
Lemma composite_depends_on_order_in_binary64 :
  Forall2
    (fun p v =>
       MoreExamples._evaluatePotentials64 (Generic.Instance _ p) 1%float 0%float None
         0%float 0 0 = Ok (Some v))
    [MoreExamples.big; MoreExamples.unit64; MoreExamples.minus_big]
    [1e16; 1; -1e16]%float /\
  MoreExamples._evaluatePotentials64
    (Generic.PotList _ [MoreExamples.big; MoreExamples.unit64; MoreExamples.minus_big])
    1%float 0%float None 0%float 0 0 = Ok (Some 0%float) /\
  MoreExamples._evaluatePotentials64
    (Generic.PotList _ [MoreExamples.big; MoreExamples.minus_big; MoreExamples.unit64])
    1%float 0%float None 0%float 0 0 = Ok (Some 1%float) /\
  MoreExamples._evaluatePotentials64
    (Generic.PotList _ [MoreExamples.big; MoreExamples.unit64; MoreExamples.minus_big])
    1%float 0%float None 0%float 0 0
  <> MoreExamples._evaluatePotentials64
       (Generic.PotList _ [MoreExamples.big; MoreExamples.minus_big; MoreExamples.unit64])
       1%float 0%float None 0%float 0 0.
Proof.
  assert (E1 : MoreExamples._evaluatePotentials64
                 (Generic.PotList _
                    [MoreExamples.big; MoreExamples.unit64; MoreExamples.minus_big])
                 1%float 0%float None 0%float 0 0 = Ok (Some 0%float))
    by (vm_compute; reflexivity).
  assert (E2 : MoreExamples._evaluatePotentials64
                 (Generic.PotList _
                    [MoreExamples.big; MoreExamples.minus_big; MoreExamples.unit64])
                 1%float 0%float None 0%float 0 0 = Ok (Some 1%float))
    by (vm_compute; reflexivity).
  split; [repeat constructor|]. split; [exact E1|]. split; [exact E2|].
  rewrite E1, E2. intros H.
  apply (f_equal (fun r => match r with
                           | Ok (Some x) => PrimFloat.eqb x 0
                           | _ => false
                           end)) in H.
  vm_compute in H. discriminate H.
Qed.

(** The statement on the list of three, and on the pair
    [[big, unit64]]. *)
Lemma composite_is_left_to_right_sum_witness :
  MoreExamples._evaluatePotentials64
    (Generic.PotList _ [MoreExamples.big; MoreExamples.unit64; MoreExamples.minus_big])
    1%float 0%float None 0%float 0 0
  = Ok (Some (fold_left PrimFloat.add [1e16; 1; -1e16]%float 0%float)) /\
  MoreExamples._evaluatePotentials64
    (Generic.PotList _ [MoreExamples.unit64; MoreExamples.big])
    1%float 0%float None 0%float 0 0
  = Ok (Some (PrimFloat.add 1e16 1)).
Proof.
  split.
  - apply (composite_is_left_to_right_sum PrimFloat.float Arith.binary64
             MoreExamples.constant64 (fun _ => false) MoreExamples.constant64_call
             [MoreExamples.big; MoreExamples.unit64; MoreExamples.minus_big]
             [1e16; 1; -1e16]%float).
    repeat constructor.
  - apply (proj2 (composite_is_left_to_right_sum PrimFloat.float Arith.binary64
                    MoreExamples.constant64 (fun _ => false)
                    MoreExamples.constant64_call
                    [MoreExamples.big; MoreExamples.unit64] [1e16; 1]%float
                    1%float 0%float None 0%float 0%Z 0%Z ltac:(repeat constructor))
             MoreExamples.big MoreExamples.unit64 1e16%float 1%float);
      vm_compute; reflexivity.
Defined.

(** ** Potential.py: evaluating a list of fields *)

Section Composite.

Import Potential.

Lemma isNonAxi_list (ps : list Potential) :
  _isNonAxi (PotList ps) = existsb isNonAxi ps.
Proof.
  unfold _isNonAxi. induction ps as [|p ps IH]; simpl.
  - reflexivity.
  - rewrite negb_andb, negb_involutive. simpl in IH. rewrite IH. reflexivity.
Qed.

Lemma isNonAxi_members (Pot : PotArg) :
  _isNonAxi Pot = existsb isNonAxi (members Pot).
Proof.
  destruct Pot as [p|ps].
  - simpl. now rewrite orb_false_r.
  - apply isNonAxi_list.
Qed.

Lemma sum_loop_opt_values (member : Potential -> result (option float))
  (ps : list Potential) (vs : list float) (acc : float) :
  Forall2 (fun p v => member p = Ok (Some v)) ps vs ->
  sum_loop_opt member ps acc = Ok (acc + total vs).
Proof.
  intros H. revert acc. induction H as [|p v ps vs Hp _ IH]; intros acc; simpl.
  - f_equal. lra.
  - rewrite Hp. simpl. rewrite IH. f_equal. lra.
Qed.

Lemma sum_loop_opt_raise (member : Potential -> result (option float))
  (ps : list Potential) (acc : float) (msg : string) :
  sum_loop_opt member ps acc = Raise (PotentialError msg) ->
  exists p, In p ps /\ member p = Raise (PotentialError msg).
Proof.
  revert acc. induction ps as [|p ps IH]; intros acc; simpl.
  - discriminate.
  - destruct (member p) as [[v|]|e] eqn:E; simpl.
    + intros H. destruct (IH _ H) as [q [Hq Eq]]. exists q. auto.
    + discriminate.
    + intros H. exists p. split; [now left|]. congruence.
Qed.

Lemma sum_loop_as_opt (member : Potential -> result float) (ps : list Potential)
  (acc : float) :
  sum_loop member ps acc = sum_loop_opt (fun p => some (member p)) ps acc.
Proof.
  revert acc. induction ps as [|p ps IH]; intros acc; simpl.
  - reflexivity.
  - destruct (member p); simpl; auto.
Qed.

Lemma some_gated (member : Potential -> result float) (Pot : PotArg)
  (phi : option float) :
  some (if _isNonAxi Pot && is_None phi then Raise (PotentialError msg_no_phi)
        else match Pot with
             | PotList ps => sum_loop member ps 0
             | Instance p => member p
             end)
  = gated (fun p => some (member p)) Pot phi.
Proof.
  unfold gated. destruct (_isNonAxi Pot && is_None phi); [reflexivity|].
  destruct Pot; [reflexivity|]. now rewrite sum_loop_as_opt.
Qed.

Lemma evaluate_gated (op : operation) (Pot : PotArg) (R z : float)
  (phi : option float) (t : float) :
  evaluate op Pot R z phi t = gated (fun p => member_call op p R z phi t) Pot phi.
Proof.
  destruct op; try apply some_gated. reflexivity.
Qed.

(** No method of a member raises the "azimuth required" error. *)
Lemma member_call_not_no_phi (op : operation) (p : Potential) (R z : float)
  (phi : option float) (t : float) :
  member_call op p R z phi t <> Raise (PotentialError msg_no_phi).
Proof.
  destruct op; cbn;
    unfold _call_nodecorator, dens, rforce, Rforce, zforce, phiforce,
      _Rforce_nodecorator, _zforce_nodecorator, _phiforce_nodecorator,
      R2deriv, z2deriv, Rzderiv, phi2deriv, Rphideriv, some, truediv;
    repeat (match goal with
            | |- context [match ?x with _ => _ end] => destruct x; cbn
            | |- context [if ?x then _ else _] => destruct x; cbn
            end);
    discriminate.
Qed.

Lemma gated_raise_iff (member : Potential -> result (option float)) (Pot : PotArg)
  (phi : option float) :
  (forall p, member p <> Raise (PotentialError msg_no_phi)) ->
  gated member Pot phi = Raise (PotentialError msg_no_phi) <->
  Exists (fun p => isNonAxi p = true) (members Pot) /\ phi = None.
Proof.
  intros Hm. unfold gated. rewrite isNonAxi_members.
  destruct (existsb isNonAxi (members Pot)) eqn:E.
  - apply existsb_exists in E. destruct phi as [x|]; simpl.
    + split.
      * intros H. exfalso. destruct Pot as [p|ps].
        -- exact (Hm p H).
        -- unfold some in H.
           destruct (sum_loop_opt member ps 0) eqn:S; [discriminate|].
           simpl in H. injection H as ->.
           destruct (sum_loop_opt_raise _ _ _ _ S) as [q [_ Hq]].
           exact (Hm q Hq).
      * intros [_ H]. discriminate.
    + split; [|reflexivity]. intros _. split; [|reflexivity].
      apply Exists_exists. exact E.
  - simpl. split.
    + intros H. exfalso. destruct Pot as [p|ps].
      * exact (Hm p H).
      * unfold some in H.
        destruct (sum_loop_opt member ps 0) eqn:S; [discriminate|].
        simpl in H. injection H as ->.
        destruct (sum_loop_opt_raise _ _ _ _ S) as [q [_ Hq]].
        exact (Hm q Hq).
    + intros [H _]. apply Exists_exists in H.
      assert (existsb isNonAxi (members Pot) = true) by (apply existsb_exists; exact H).
      congruence.
Qed.

Lemma gated_axisymmetric (member : Potential -> result (option float)) (Pot : PotArg)
  (phi : option float) (vs : list float) :
  Forall (fun p => isNonAxi p = false) (members Pot) ->
  Forall2 (fun p v => member p = Ok (Some v)) (members Pot) vs ->
  gated member Pot phi = Ok (Some (total vs)).
Proof.
  intros Hax Hv. unfold gated. rewrite isNonAxi_members.
  assert (E : existsb isNonAxi (members Pot) = false).
  { destruct (existsb isNonAxi (members Pot)) eqn:E; [|reflexivity].
    apply existsb_exists in E. destruct E as [p [Hp Hn]].
    rewrite Forall_forall in Hax. rewrite (Hax p Hp) in Hn. discriminate. }
  rewrite E. simpl. destruct Pot as [p|ps]; simpl in *.
  - inversion Hv as [|? v ? vs' Hp Hrest]; subst. inversion Hrest; subst.
    rewrite Hp. simpl. do 2 f_equal. lra.
  - rewrite (sum_loop_opt_values _ _ _ _ Hv). simpl. do 2 f_equal. lra.
Qed.

(** C6.  For each public evaluation operation, on an instance or a list:
    the call raises the "azimuth required" [PotentialError] exactly when
    some member is non-axisymmetric and no azimuth is given; and when every
    member is axisymmetric and its own method evaluates without an
    azimuth, to the values [vs], the call without an azimuth returns the
    sum of [vs]. *)
Theorem azimuth_required_iff (op : operation) (Pot : PotArg) (R z : float)
  (phi : option float) (t : float) :
  (evaluate op Pot R z phi t = Raise (PotentialError msg_no_phi) <->
   Exists (fun p => isNonAxi p = true) (members Pot) /\ phi = None) /\
  (forall vs,
      Forall (fun p => isNonAxi p = false) (members Pot) ->
      Forall2 (fun p v => member_call op p R z None t = Ok (Some v)) (members Pot) vs ->
      evaluate op Pot R z None t = Ok (Some (total vs))).
Proof.
  split.
  - rewrite evaluate_gated. apply gated_raise_iff.
    intros p. apply member_call_not_no_phi.
  - intros vs Hax Hv. rewrite evaluate_gated.
    now apply gated_axisymmetric.
Qed.

End Composite.

(** Without an azimuth the list [[flat, bar]] is refused, because [bar] is
    non-axisymmetric, and [flat] alone is evaluated. *)
Lemma azimuth_required_iff_witness :
  Potential.evaluate (Potential.OpPotentials 0 0)
    (Potential.PotList [Examples.flat; Examples.bar]) 1 0 None 0
  = Raise (PotentialError Potential.msg_no_phi) /\
  Potential.evaluate (Potential.OpPotentials 0 0)
    (Potential.PotList [Examples.flat]) 1 0 None 0
  = Ok (Some (Potential.total [1 * ln 1])) /\
  Potential.evaluate Potential.OpRforces
    (Potential.Instance Examples.flat) 1 0 None 0
  = Ok (Some (Potential.total [1 * - / 1])).
Proof.
  split; [|split].
  - apply (azimuth_required_iff (Potential.OpPotentials 0 0)). split; [|reflexivity].
    apply Exists_cons_tl. apply Exists_cons_hd. reflexivity.
  - apply (proj2 (azimuth_required_iff (Potential.OpPotentials 0 0)
                    (Potential.PotList [Examples.flat]) 1 0 None 0)).
    + repeat constructor.
    + constructor; [reflexivity | constructor].
  - apply (proj2 (azimuth_required_iff Potential.OpRforces
                    (Potential.Instance Examples.flat) 1 0 None 0)).
    + repeat constructor.
    + constructor; [reflexivity | constructor].
Defined.

(** ** SCFPotential.py: the sum over [(n,l,m)] *)

Section SCFSum.

Import SCFPotential.

Variable cyl_to_spher : float -> float -> float -> float * float * float.
Variable lpmn : nat -> nat -> float -> table2.

(** With two or more angular orders the bound of the inner loop,
    [nu.arange(0,L) + 1], is an array of [L] integers, and [range] refuses
    it. *)
Lemma range_of_arange (L : nat) :
  (2 <= L)%nat -> range (add1 (MArr (seq 0 L))) = Raise (TypeError msg_range).
Proof.
  intros HL. destruct L as [|[|L']]; try lia. reflexivity.
Qed.

Lemma outer_loop_refused (self : SCFPotential) (N L : nat) (func_tilde PP : table2)
  (mcos msin : list float) (func : table3) :
  (2 <= L)%nat ->
  outer_loop self N func_tilde PP mcos msin (seq 0 L) (func, MArr (seq 0 L))
  = Raise (TypeError msg_range).
Proof.
  intros HL. destruct L as [|[|L']]; try lia. reflexivity.
Qed.

(** Whatever the point and the radial profile, [_compute] raises as soon as
    the coefficient arrays have two or more angular orders. *)
Lemma compute_refused (self : SCFPotential)
  (funcTilde : SCFPotential -> float -> table2 -> nat -> nat -> table2)
  (N L M : nat) (R z phi : float) :
  shape (_Acos self) = (N, L, M) -> (2 <= L)%nat ->
  _compute cyl_to_spher lpmn self funcTilde R z phi = Raise (TypeError msg_range).
Proof.
  intros Hs HL. unfold _compute. rewrite Hs.
  destruct (cyl_to_spher R phi z) as [[r theta] phi'].
  rewrite outer_loop_refused by exact HL. reflexivity.
Qed.

Lemma evaluate_refused (self : SCFPotential) (N L M : nat) (R z phi t : float) :
  shape (_Acos self) = (N, L, M) -> (2 <= L)%nat ->
  _evaluate cyl_to_spher lpmn self R z phi t = Raise (TypeError msg_range) /\
  _dens cyl_to_spher lpmn self R z phi t = Raise (TypeError msg_range).
Proof.
  intros Hs HL. unfold _evaluate, _dens. rewrite Hs.
  rewrite !(compute_refused self _ N L M R z phi Hs HL). split; reflexivity.
Qed.

(** C2.  On coefficient arrays of shape 1 x 2 x 2, at every point
    [(R,z,phi)] and whatever the coordinate transform and the Legendre
    table are, neither the potential nor the density evaluation returns the
    sum over [(n,l,m)]: both raise [TypeError] when the inner loop asks for
    [range(m + 1)] with [m] still the array [nu.arange(0,L)]. *)
Theorem scf_evaluation_refuses_two_angular_orders (R z phi t : float) :
  _evaluate cyl_to_spher lpmn Examples.scf_1_2_2 R z phi t
  = Raise (TypeError msg_range) /\
  _dens cyl_to_spher lpmn Examples.scf_1_2_2 R z phi t
  = Raise (TypeError msg_range).
Proof.
  apply (evaluate_refused Examples.scf_1_2_2 1 2 2); [reflexivity | lia].
Qed.

(** *** A single angular order

    With [L = 1] the bound [nu.arange(0,1) + 1] has one entry, [range]
    accepts it, and the loops run as intended. *)

Lemma broadcast2_scalar (op : float -> float -> float) (a : list float) (y : float) :
  broadcast2 op a [y] = Ok (map (fun x => op x y) a).
Proof.
  unfold broadcast2. destruct a as [|x [|x' a]]; reflexivity.
Qed.

Lemma broadcast2_same (op : float -> float -> float) (a b : list float) :
  length a = length b ->
  broadcast2 op a b = Ok (map (fun p => op (fst p) (snd p)) (combine a b)).
Proof.
  intros H. unfold broadcast2. rewrite H, Nat.eqb_refl. reflexivity.
Qed.

Lemma combine_map_same {A B C : Type} (f : A -> B) (g : A -> C) (l : list A) :
  combine (map f l) (map g l) = map (fun x => (f x, g x)) l.
Proof. induction l as [|x l IH]; simpl; congruence. Qed.

Lemma nth_map_seq (F : nat -> float) (N n : nat) :
  (n < N)%nat -> nth n (map F (seq 0 N)) 0 = F n.
Proof.
  intros H. rewrite (nth_indep _ 0 (F 0%nat)) by (rewrite length_map, length_seq; lia).
  rewrite map_nth, seq_nth by lia. reflexivity.
Qed.

(** For coefficient arrays of shape [N x 1 x M], the potential and the
    density evaluations return the sum the specification describes. *)
Lemma scf_single_angular_order (self : SCFPotential) (N M M' : nat)
  (R z phi t : float) :
  shape (_Acos self) = (N, 1%nat, M) -> shape (_Asin self) = (N, 1%nat, M') ->
  (1 <= M)%nat -> (1 <= M')%nat ->
  _evaluate cyl_to_spher lpmn self R z phi t
  = Ok (spec_sum cyl_to_spher lpmn self _phiTilde R z phi) /\
  _dens cyl_to_spher lpmn self R z phi t
  = Ok (spec_sum cyl_to_spher lpmn self _rhoTilde R z phi).
Proof.
  intros HA HB HM HM'.
  assert (Hc : forall funcTilde,
             bind (_compute cyl_to_spher lpmn self funcTilde R z phi)
               (fun func => Ok (sum3 N 1 func))
             = Ok (spec_sum cyl_to_spher lpmn self funcTilde R z phi)).
  { intros funcTilde. unfold _compute, spec_sum. rewrite HA.
    destruct (cyl_to_spher R phi z) as [[r theta] phi'].
    cbn [seq outer_loop inner_loop snd fst add1 map range bind].
    unfold assign, slice. rewrite HA, HB.
    replace (0 <? M)%nat with true by (symmetry; apply Nat.ltb_lt; lia).
    replace (0 <? M')%nat with true by (symmetry; apply Nat.ltb_lt; lia).
    cbn [Nat.ltb Nat.leb andb bind].
    rewrite !broadcast2_scalar. cbn [bind].
    rewrite broadcast2_same by (rewrite !length_map; reflexivity). cbn [bind].
    rewrite !map_map, combine_map_same, map_map. unfold column.
    rewrite broadcast2_same by (rewrite !length_map; reflexivity). cbn [bind].
    rewrite combine_map_same, !map_map.
    rewrite broadcast_to_same by (rewrite length_map, length_seq; reflexivity).
    cbn [bind fst snd]. f_equal. unfold sum3. f_equal.
    apply map_ext_in. intros n Hn. apply in_seq in Hn.
    cbn [seq map Nat.add]. unfold setcol. cbn [Nat.eqb andb].
    rewrite nth_map_seq by lia. unfold nu.sum. cbn [fold_left fst snd].
    lra. }
  unfold _evaluate, _dens. rewrite HA. split; apply Hc.
Qed.

End SCFSum.

(** ** Potential.py: the radius of a circular orbit and the resonances *)

Section Resonances.

Import Potential.

Variable planarArg : Type.
Variable RZToplanarPotential : anyPot planarArg -> planarArg.
Variable evaluateplanarRforces : anyPot planarArg -> float -> result float.
Variable evaluateplanarR2derivs : anyPot planarArg -> float -> result float.
Variable planar_isinstance : planarArg -> bool.
Variable planar_epifreq : planarArg -> float -> result float.
Variable vcirc : anyPot planarArg -> float -> result float.
Variable brentq : (float -> result float) -> float -> float -> brentq_kwargs
                  -> result float.

(** The contract of the root finder: it refuses a bracket whose end points
    have values of the same sign with [ValueError], and the residual at a
    point it returns is within the tolerance [tol]. *)
Variable tol : float.
Hypothesis brentq_sign :
  forall f a b kwargs fa fb,
    f a = Ok fa -> f b = Ok fb -> fa * fb > 0 ->
    exists msg, brentq f a b kwargs = Raise (ValueError msg).
Hypothesis brentq_root :
  forall f a b kwargs x,
    brentq f a b kwargs = Ok x -> exists fx, f x = Ok fx /\ Rabs fx <= tol.

Local Abbreviation _rlfunc := (Potential._rlfunc planarArg vcirc).
Local Abbreviation _rlFindStart_loop := (Potential._rlFindStart_loop planarArg vcirc).
Local Abbreviation _rlFindStart := (Potential._rlFindStart planarArg vcirc).
Local Abbreviation rl := (Potential.rl planarArg vcirc brentq).
Local Abbreviation omegac :=
  (Potential.omegac planarArg RZToplanarPotential evaluateplanarRforces).
Local Abbreviation epifreq :=
  (Potential.epifreq planarArg RZToplanarPotential evaluateplanarRforces
     evaluateplanarR2derivs planar_isinstance planar_epifreq).
Local Abbreviation _corotationR_eq :=
  (Potential._corotationR_eq planarArg RZToplanarPotential evaluateplanarRforces).
Local Abbreviation _lindbladR_eq :=
  (Potential._lindbladR_eq planarArg RZToplanarPotential evaluateplanarRforces
     evaluateplanarR2derivs planar_isinstance planar_epifreq).
Local Abbreviation lindbladR :=
  (Potential.lindbladR planarArg RZToplanarPotential evaluateplanarRforces
     evaluateplanarR2derivs planar_isinstance planar_epifreq brentq).

(** The bracket search stops at the first trial radius at which the loop
    condition fails: the trials are [rtry * c^j], with [c = 2] when
    doubling and [c = 1/2] when halving. *)
Lemma rlFindStart_loop_stops (lower : bool) (lz : float) (pot : anyPot planarArg)
  (c : float) (k : nat) :
  c = (if lower then / 2 else 2) ->
  forall (fuel : nat) (rtry : float),
    (forall j, (j < k)%nat ->
       exists v, _rlfunc (rtry * c ^ j) lz pot = Ok v /\ (2 * b2R lower - 1) * v > 0) ->
    (exists v, _rlfunc (rtry * c ^ k) lz pot = Ok v /\ ~ (2 * b2R lower - 1) * v > 0) ->
    (k < fuel)%nat ->
    _rlFindStart_loop fuel rtry lz pot lower = Some (Ok (rtry * c ^ k)).
Proof.
  intros Hc.
  induction k as [|k IH]; intros fuel rtry Hbefore [v [Hv Hstop]] Hfuel;
    (destruct fuel as [|fuel]; [lia|]); cbn [Potential._rlFindStart_loop].
  - replace (rtry * c ^ 0) with rtry in * by (simpl; lra).
    rewrite Hv. destruct (Rgt_dec _ _) as [H|H]; [contradiction|reflexivity].
  - destruct (Hbefore 0%nat ltac:(lia)) as [v0 [Hv0 Hgo]].
    replace (rtry * c ^ 0) with rtry in Hv0 by (simpl; lra).
    rewrite Hv0. destruct (Rgt_dec _ _) as [H|H]; [|contradiction].
    assert (Enext : (if lower then rtry / 2 else rtry * 2) = rtry * c)
      by (rewrite Hc; destruct lower; lra).
    rewrite Enext.
    replace (rtry * c ^ S k) with (rtry * c * c ^ k) by (simpl; lra).
    apply IH.
    + intros j Hj. destruct (Hbefore (S j) ltac:(lia)) as [w [Hw Hw']].
      exists w. split; [|exact Hw'].
      replace (rtry * c * c ^ j) with (rtry * c ^ S j) by (simpl; lra). exact Hw.
    + exists v. split; [|exact Hstop].
      replace (rtry * c * c ^ k) with (rtry * c ^ S k) by (simpl; lra). exact Hv.
    + lia.
Qed.

Lemma rl_returns_solver_result (fuel : nat) (Pot : anyPot planarArg) (lz R : float) :
  rl fuel Pot lz = Some (Ok R) ->
  exists a b kwargs,
    brentq (fun r => _rlfunc r (Rabs lz) Pot) a b kwargs = Ok R.
Proof.
  unfold Potential.rl.
  destruct (_rlFindStart fuel (Rabs lz) (Rabs lz) Pot false) as [[rstart|e]|];
    try discriminate.
  destruct (brentq _ (/ 10 ^ 5) rstart _) as [x|e] eqn:E1.
  - intros H. injection H as <-. eauto.
  - destruct e; try discriminate.
    destruct (_rlFindStart fuel (/ 10 ^ 5) (Rabs lz) Pot true) as [[rlower|e]|];
      try discriminate.
    intros H. injection H as H. eauto.
Qed.

(** C8.  [rl(Pot,lz)], with [L = |lz|] and [f(R) = R*vcirc(R) - L].

    - The upper bracket is found by doubling from [2L]: when [f] is
      negative at the first [k] trials [2L*2^j] and not at the next, the
      search returns [rstart = 2L*2^k].
    - The root is then sought between [1e-5] and [rstart]; what the solver
      returns there is what [rl] returns.
    - When the solver refuses that bracket with [ValueError], as it does
      when [f] has the same sign at [1e-5] and at [rstart], a lower bracket
      is found by halving from
      [2e-5]: when [f] is positive at the first [k] trials [2e-5/2^j] and
      not at the next, the search returns [rlower = 2e-5/2^k]; the solver is
      called once more, on [rlower, rstart], and its outcome, a radius or
      an error, is the outcome of [rl].
    - At a radius [R] that [rl] returns, [|R*vcirc(R) - L| <= tol]. *)
Theorem rl_bracket_then_root_find (Pot : anyPot planarArg) (lz : float) (fuel : nat) :
  let L := Rabs lz in
  let f := fun r => _rlfunc r L Pot in
  (forall k,
      (forall j, (j < k)%nat -> exists v, f (2 * L * 2 ^ j) = Ok v /\ v < 0) ->
      (exists v, f (2 * L * 2 ^ k) = Ok v /\ 0 <= v) ->
      (k < fuel)%nat ->
      _rlFindStart fuel L L Pot false = Some (Ok (2 * L * 2 ^ k))) /\
  (forall k,
      (forall j, (j < k)%nat -> exists v, f (2 * / 10 ^ 5 * (/ 2) ^ j) = Ok v /\ 0 < v) ->
      (exists v, f (2 * / 10 ^ 5 * (/ 2) ^ k) = Ok v /\ v <= 0) ->
      (k < fuel)%nat ->
      _rlFindStart fuel (/ 10 ^ 5) L Pot true = Some (Ok (2 * / 10 ^ 5 * (/ 2) ^ k))) /\
  (forall rstart,
      _rlFindStart fuel L L Pot false = Some (Ok rstart) ->
      (forall x,
          brentq f (/ 10 ^ 5) rstart (mkKwargs None None (Some 200%nat) (Some false))
          = Ok x ->
          rl fuel Pot lz = Some (Ok x)) /\
      (forall msg rlower,
          brentq f (/ 10 ^ 5) rstart (mkKwargs None None (Some 200%nat) (Some false))
          = Raise (ValueError msg) ->
          _rlFindStart fuel (/ 10 ^ 5) L Pot true = Some (Ok rlower) ->
          rl fuel Pot lz = Some (brentq f rlower rstart no_kwargs)) /\
      (forall fa fb rlower,
          f (/ 10 ^ 5) = Ok fa -> f rstart = Ok fb -> fa * fb > 0 ->
          _rlFindStart fuel (/ 10 ^ 5) L Pot true = Some (Ok rlower) ->
          rl fuel Pot lz = Some (brentq f rlower rstart no_kwargs))) /\
  (forall R,
      rl fuel Pot lz = Some (Ok R) ->
      exists vc, vcirc Pot R = Ok vc /\ Rabs (R * vc - L) <= tol).
Proof.
  intros L f. split; [|split; [|split]].
  - intros k Hbefore [v [Hv Hstop]] Hfuel.
    apply (rlFindStart_loop_stops false L Pot 2 k eq_refl fuel (2 * L)).
    + intros j Hj. destruct (Hbefore j Hj) as [w [Hw Hneg]].
      exists w. split; [exact Hw|]. simpl. lra.
    + exists v. split; [exact Hv|]. simpl. lra.
    + exact Hfuel.
  - intros k Hbefore [v [Hv Hstop]] Hfuel.
    apply (rlFindStart_loop_stops true L Pot (/ 2) k eq_refl fuel (2 * / 10 ^ 5)).
    + intros j Hj. destruct (Hbefore j Hj) as [w [Hw Hpos]].
      exists w. split; [exact Hw|]. simpl. lra.
    + exists v. split; [exact Hv|]. simpl. lra.
    + exact Hfuel.
  - intros rstart Hstart. split; [|split].
    + intros x Hx. unfold Potential.rl. fold L. rewrite Hstart.
      fold f. rewrite Hx. reflexivity.
    + intros msg rlower Hmsg Hlower.
      unfold Potential.rl. fold L. rewrite Hstart. fold f.
      rewrite Hmsg, Hlower. reflexivity.
    + intros fa fb rlower Hfa Hfb Hsign Hlower.
      unfold Potential.rl. fold L. rewrite Hstart. fold f.
      destruct (brentq_sign f (/ 10 ^ 5) rstart
                  (mkKwargs None None (Some 200%nat) (Some false)) fa fb Hfa Hfb Hsign)
        as [msg Hmsg].
      rewrite Hmsg, Hlower. reflexivity.
  - intros R HR.
    destruct (rl_returns_solver_result fuel Pot lz R HR) as [a [b [kw Hb]]].
    destruct (brentq_root _ a b kw R Hb) as [fx [Hfx Htol]].
    unfold Potential._rlfunc in Hfx.
    destruct (vcirc Pot R) as [vc|e]; [|discriminate].
    simpl in Hfx. injection Hfx as <-. exists vc. split; [reflexivity | exact Htol].
Qed.

Local Abbreviation omegac_reads :=
  (Potential.omegac_reads planarArg RZToplanarPotential evaluateplanarRforces).
Local Abbreviation epifreq_reads :=
  (Potential.epifreq_reads planarArg RZToplanarPotential evaluateplanarRforces
     evaluateplanarR2derivs planar_isinstance planar_epifreq).
Local Abbreviation epifreq_planar :=
  (Potential.epifreq_planar planarArg evaluateplanarRforces evaluateplanarR2derivs).

Lemma omegac_value (Pot : anyPot planarArg) (R F : float) :
  R <> 0 -> omegac_reads Pot R F -> omegac Pot R = Ok (sqrt (- F / R)).
Proof.
  intros HR [HF | [[msg HF] HF']];
    unfold Potential.omegac, Potential.omegac_planar, truediv;
    rewrite HF; cbn [bind]; rewrite ?HF'; cbn [bind];
    (destruct (Req_dec_T R 0) as [E|_]; [contradiction | reflexivity]).
Qed.

Lemma epifreq_planar_value (Pot : anyPot planarArg) (R d F : float) :
  R <> 0 -> Potential.planar_gives planarArg evaluateplanarRforces
              evaluateplanarR2derivs Pot R d F ->
  epifreq_planar Pot R = Ok (sqrt (d - 3 / R * F)).
Proof.
  intros HR [Hd HF]. unfold Potential.epifreq_planar, truediv. rewrite Hd, HF.
  cbn [bind]. destruct (Req_dec_T R 0) as [E|_]; [contradiction | reflexivity].
Qed.

Lemma epifreq_planar_refused (Pot : anyPot planarArg) (R : float) :
  R <> 0 -> Potential.planar_refuses planarArg evaluateplanarRforces
              evaluateplanarR2derivs Pot R ->
  exists msg, epifreq_planar Pot R = Raise (PotentialError msg).
Proof.
  intros HR [[msg Hd] | [d [msg [Hd HF]]]]; exists msg;
    unfold Potential.epifreq_planar, truediv; rewrite Hd; cbn [bind];
    [reflexivity|].
  destruct (Req_dec_T R 0) as [E|_]; [contradiction|]. cbn [bind].
  rewrite HF. reflexivity.
Qed.

Lemma epifreq_value (Pot : anyPot planarArg) (R d F : float) :
  R <> 0 -> epifreq_reads Pot R d F ->
  epifreq Pot R = Ok (sqrt (d - 3 / R * F)).
Proof.
  intros HR H.
  assert (Hp : Potential.planar_gives planarArg evaluateplanarRforces
                 evaluateplanarR2derivs Pot R d F \/
               (Potential.planar_refuses planarArg evaluateplanarRforces
                  evaluateplanarR2derivs Pot R /\
                Potential.planar_gives planarArg evaluateplanarRforces
                  evaluateplanarR2derivs (inr (RZToplanarPotential Pot)) R d F) ->
               match epifreq_planar Pot R with
               | Raise (PotentialError _) =>
                   epifreq_planar (inr (RZToplanarPotential Pot)) R
               | r => r
               end = Ok (sqrt (d - 3 / R * F))).
  { intros [Hg | [Hr Hg]].
    - now rewrite (epifreq_planar_value Pot R d F HR Hg).
    - destruct (epifreq_planar_refused Pot R HR Hr) as [msg ->].
      exact (epifreq_planar_value _ R d F HR Hg). }
  unfold Potential.epifreq. destruct Pot as [[p|ps]|q];
    unfold Potential.epifreq_reads in H; cbv zeta in H.
  - destruct H as [Hd HF]. unfold epifreq_method, truediv. rewrite Hd, HF.
    cbn [bind]. destruct (Req_dec_T R 0) as [E|_]; [contradiction | reflexivity].
  - now apply Hp.
  - destruct (planar_isinstance q); [exact H | now apply Hp].
Qed.

(** C9.  [lindbladR(Pot,OmegaP,m)] over the interval [1e-7, 1000].

    - The equation.  At [R <> 0], with [F] the planar radial force that
      [omegac] reads, [-F/R >= 0], the corotation equation is
      [sqrt(-F/R) - OmegaP]; with [d] and [F'] the second radial derivative
      and the radial force that [epifreq] reads, [d - 3/R*F' >= 0], the
      equation of order [m] is
      [m*(sqrt(-F/R) - OmegaP) - sqrt(d - 3/R*F')].
    - When such an equation has values of the same sign at [1e-7] and at
      [1000], the call returns [None]; no error is raised.
    - When the solver returns a radius on that interval, the call returns
      it, and the equation holds there within [tol]. *)
Theorem lindbladR_fixed_interval (Pot : anyPot planarArg) (OmegaP : float)
  (kwargs : brentq_kwargs) :
  let a := 1 / 10 ^ 7 in
  let b := 1000 in
  let corot := fun R => _corotationR_eq R Pot OmegaP in
  let lind := fun m R => _lindbladR_eq R Pot OmegaP m in
  let Omega := fun F R => sqrt (- F / R) in
  let kappa := fun d F R => sqrt (d - 3 / R * F) in
  (forall R F, R <> 0 -> omegac_reads Pot R F -> 0 <= - F / R ->
      corot R = Ok (Omega F R - OmegaP)) /\
  (forall m R F d F', R <> 0 ->
      omegac_reads Pot R F -> epifreq_reads Pot R d F' ->
      0 <= - F / R -> 0 <= d - 3 / R * F' ->
      lind m R = Ok (m * (Omega F R - OmegaP) - kappa d F' R)) /\
  (forall Fa Fb,
      omegac_reads Pot a Fa -> omegac_reads Pot b Fb ->
      0 <= - Fa / a -> 0 <= - Fb / b ->
      (Omega Fa a - OmegaP) * (Omega Fb b - OmegaP) > 0 ->
      lindbladR Pot OmegaP (inl "corotation"%string) kwargs = Ok None) /\
  (forall m Fa da Fa' Fb db Fb',
      omegac_reads Pot a Fa -> epifreq_reads Pot a da Fa' ->
      omegac_reads Pot b Fb -> epifreq_reads Pot b db Fb' ->
      0 <= - Fa / a -> 0 <= da - 3 / a * Fa' ->
      0 <= - Fb / b -> 0 <= db - 3 / b * Fb' ->
      (m * (Omega Fa a - OmegaP) - kappa da Fa' a)
      * (m * (Omega Fb b - OmegaP) - kappa db Fb' b) > 0 ->
      lindbladR Pot OmegaP (inr m) kwargs = Ok None) /\
  (forall x,
      brentq corot a b kwargs = Ok x ->
      lindbladR Pot OmegaP (inl "corotation"%string) kwargs = Ok (Some x) /\
      forall F, x <> 0 -> omegac_reads Pot x F -> 0 <= - F / x ->
                Rabs (Omega F x - OmegaP) <= tol) /\
  (forall m x,
      brentq (lind m) a b kwargs = Ok x ->
      lindbladR Pot OmegaP (inr m) kwargs = Ok (Some x) /\
      forall F d F', x <> 0 ->
        omegac_reads Pot x F -> epifreq_reads Pot x d F' ->
        0 <= - F / x -> 0 <= d - 3 / x * F' ->
        Rabs (m * (Omega F x - OmegaP) - kappa d F' x) <= tol).
Proof.
  intros a b corot lind Omega kappa.
  assert (Ha : a <> 0) by (unfold a; apply Rgt_not_eq; lra).
  assert (Hb : b <> 0) by (unfold b; lra).
  assert (Ecorot : forall R F, R <> 0 -> omegac_reads Pot R F ->
                     corot R = Ok (Omega F R - OmegaP)).
  { intros R F HR HF. unfold corot, Potential._corotationR_eq.
    fold omegac. rewrite (omegac_value Pot R F HR HF). reflexivity. }
  assert (Elind : forall m R F d F', R <> 0 ->
                    omegac_reads Pot R F -> epifreq_reads Pot R d F' ->
                    lind m R = Ok (m * (Omega F R - OmegaP) - kappa d F' R)).
  { intros m R F d F' HR HF Hr. unfold lind, Potential._lindbladR_eq.
    fold omegac. fold epifreq.
    rewrite (omegac_value Pot R F HR HF), (epifreq_value Pot R d F' HR Hr).
    reflexivity. }
  split; [|split; [|split; [|split; [|split]]]].
  - intros R F HR HF _. now apply Ecorot.
  - intros m R F d F' HR HF Hr _ _. now apply Elind.
  - intros Fa Fb HFa HFb _ _ Hs.
    destruct (brentq_sign corot a b kwargs _ _
                (Ecorot a Fa Ha HFa) (Ecorot b Fb Hb HFb) Hs) as [msg Hmsg].
    unfold Potential.lindbladR.
    change (str_in "corot" (lower "corotation")) with true. cbv iota.
    fold corot. fold a. fold b. rewrite Hmsg. reflexivity.
  - intros m Fa da Fa' Fb db Fb' HFa Hra HFb Hrb _ _ _ _ Hs.
    destruct (brentq_sign (lind m) a b kwargs _ _
                (Elind m a Fa da Fa' Ha HFa Hra) (Elind m b Fb db Fb' Hb HFb Hrb) Hs)
      as [msg Hmsg].
    unfold Potential.lindbladR. fold (lind m). fold a. fold b.
    rewrite Hmsg. reflexivity.
  - intros x Hx. split.
    + unfold Potential.lindbladR.
      change (str_in "corot" (lower "corotation")) with true. cbv iota.
      fold corot. fold a. fold b. rewrite Hx. reflexivity.
    + intros F Hx0 HF _.
      destruct (brentq_root _ _ _ _ _ Hx) as [fx [Hfx Htol]].
      rewrite (Ecorot x F Hx0 HF) in Hfx. injection Hfx as <-. exact Htol.
  - intros m x Hx. split.
    + unfold Potential.lindbladR. fold (lind m). fold a. fold b.
      rewrite Hx. reflexivity.
    + intros F d F' Hx0 HF Hr _ _.
      destruct (brentq_root _ _ _ _ _ Hx) as [fx [Hfx Htol]].
      rewrite (Elind m x F d F' Hx0 HF Hr) in Hfx. injection Hfx as <-. exact Htol.
Qed.

End Resonances.

(** ** The stand-in root finder meets the solver contract *)

Lemma brentq_model_sign (tol : float) (f : float -> result float) (a b : float)
  (kwargs : Potential.brentq_kwargs) (fa fb : float) :
  f a = Ok fa -> f b = Ok fb -> fa * fb > 0 ->
  exists msg, Examples.brentq_model tol f a b kwargs = Raise (ValueError msg).
Proof.
  intros Ha Hb Hs. unfold Examples.brentq_model. rewrite Ha, Hb. cbn [bind].
  destruct (Rgt_dec (fa * fb) 0) as [_|H]; [|contradiction]. eauto.
Qed.

Lemma brentq_model_root (tol : float) (f : float -> result float) (a b : float)
  (kwargs : Potential.brentq_kwargs) (x : float) :
  Examples.brentq_model tol f a b kwargs = Ok x ->
  exists fx, f x = Ok fx /\ Rabs fx <= tol.
Proof.
  unfold Examples.brentq_model.
  destruct (f a) as [fa|e]; [|discriminate].
  destruct (f b) as [fb|e]; [|discriminate]. cbn [bind].
  destruct (Rgt_dec (fa * fb) 0); [discriminate|].
  set (x0 := if Req_dec_T fa fb then a else a - fa * (b - a) / (fb - fa)).
  destruct (f x0) as [fx|e] eqn:E; [|discriminate]. cbn [bind].
  destruct (Rle_dec (Rabs fx) tol) as [Hle|]; [|discriminate].
  intros H. injection H as <-. exists fx. split; [exact E | exact Hle].
Qed.

(** On a bracket with a sign change, a function that vanishes at the
    false-position point is solved exactly. *)
Lemma brentq_model_exact (f : float -> result float) (a b : float)
  (kwargs : Potential.brentq_kwargs) (fa fb : float) :
  f a = Ok fa -> f b = Ok fb -> fa * fb <= 0 -> fa <> fb ->
  f (a - fa * (b - a) / (fb - fa)) = Ok 0 ->
  Examples.brentq_model 0 f a b kwargs = Ok (a - fa * (b - a) / (fb - fa)).
Proof.
  intros Ha Hb Hs Hne Hx. unfold Examples.brentq_model. rewrite Ha, Hb. cbn [bind].
  destruct (Rgt_dec (fa * fb) 0) as [H|_]; [lra|].
  destruct (Req_dec_T fa fb) as [H|_]; [contradiction|].
  rewrite Hx. cbn [bind].
  destruct (Rle_dec (Rabs 0) 0) as [_|H]; [reflexivity|].
  exfalso. apply H. rewrite Rabs_R0. lra.
Qed.

(** ** [rl] on the flat rotation curve, through the lower-bracket retry *)

Lemma flat_rlfunc (r L : float) :
  r <> 0 ->
  Potential._rlfunc unit Examples.vcirc_spec r L
    (inl (Potential.Instance Examples.flat))
  = Ok (r - L).
Proof.
  intros Hr. unfold Potential._rlfunc, Examples.vcirc_spec. cbn.
  replace (r * - (1 * - / r)) with 1 by (field; exact Hr).
  rewrite sqrt_1. f_equal. lra.
Qed.

(** With [lz = 7.5e-6], below the fixed lower end [1e-5] of the first
    bracket: the doubling search stops at once at [rstart = 1.5e-5], the
    solver refuses [1e-5, 1.5e-5], the halving search returns
    [rlower = 5e-6], and the second call finds the radius [7.5e-6], at
    which [R * vcirc(R) = |lz|]. *)
Lemma rl_flat_small_lz :
  Potential.rl unit Examples.vcirc_spec (Examples.brentq_model 0) 3
    (inl (Potential.Instance Examples.flat)) (3 / 400000)
  = Some (Ok (3 / 400000)).
Proof.
  unfold Potential.rl.
  assert (EL : Rabs (3 / 400000) = 3 / 400000) by (apply Rabs_pos_eq; lra).
  rewrite EL.
  set (Pot := inl (Potential.Instance Examples.flat) : Potential.anyPot unit).
  set (L := 3 / 400000).
  assert (Hup : Potential._rlFindStart unit Examples.vcirc_spec 3 L L Pot false
                = Some (Ok (2 * L * 2 ^ 0))).
  { apply (rlFindStart_loop_stops unit Examples.vcirc_spec false L Pot 2 0 eq_refl).
    - intros j Hj. lia.
    - exists (2 * L * 2 ^ 0 - L). split.
      + apply flat_rlfunc. unfold L. simpl. lra.
      + unfold L. simpl. lra.
    - lia. }
  rewrite Hup.
  destruct (brentq_model_sign 0
              (fun r => Potential._rlfunc unit Examples.vcirc_spec r L Pot)
              (/ 10 ^ 5) (2 * L * 2 ^ 0)
              (Potential.mkKwargs None None (Some 200%nat) (Some false))
              (/ 10 ^ 5 - L) (2 * L * 2 ^ 0 - L)) as [msg Hmsg].
  { apply flat_rlfunc. lra. }
  { apply flat_rlfunc. unfold L. simpl. lra. }
  { unfold L. simpl. lra. }
  rewrite Hmsg.
  assert (Hlow : Potential._rlFindStart unit Examples.vcirc_spec 3 (/ 10 ^ 5) L Pot true
                 = Some (Ok (2 * / 10 ^ 5 * (/ 2) ^ 2))).
  { apply (rlFindStart_loop_stops unit Examples.vcirc_spec true L Pot (/ 2) 2 eq_refl).
    - intros j Hj. exists (2 * / 10 ^ 5 * (/ 2) ^ j - L). split.
      + apply flat_rlfunc.
        destruct j as [|[|j]]; [simpl; lra | simpl; lra | lia].
      + destruct j as [|[|j]]; [unfold L; simpl; lra | unfold L; simpl; lra | lia].
    - exists (2 * / 10 ^ 5 * (/ 2) ^ 2 - L). split.
      + apply flat_rlfunc. simpl. lra.
      + unfold L. simpl. lra.
    - lia. }
  rewrite Hlow.
  rewrite (brentq_model_exact _ _ _ _
             (2 * / 10 ^ 5 * (/ 2) ^ 2 - L) (2 * L * 2 ^ 0 - L)).
  - do 2 f_equal. unfold L. simpl. field.
  - apply flat_rlfunc. simpl. lra.
  - apply flat_rlfunc. unfold L. simpl. lra.
  - unfold L. simpl. nra.
  - unfold L. simpl. lra.
  - rewrite flat_rlfunc.
    + f_equal. unfold L. simpl. field.
    + unfold L. simpl.
      match goal with
      | |- ?x <> 0 => replace x with (3 / 400000) by field
      end.
      lra.
Qed.

Lemma slow_rlfunc (r L : float) :
  r <> 0 ->
  Potential._rlfunc unit Examples.vcirc_spec r L
    (inl (Potential.Instance Examples.slow))
  = Ok (r * / 4 - L).
Proof.
  intros Hr. unfold Potential._rlfunc, Examples.vcirc_spec. cbn.
  replace (r * - (1 / 16 * - / r)) with (/ 4 * / 4) by (field; exact Hr).
  rewrite sqrt_square by lra. reflexivity.
Qed.

(** With [lz = 1] on the slower curve the first trial radius [2] is too
    small, one doubling reaches [rstart = 4], and the first call of the
    solver, on [1e-5, 4], finds the radius [4], at which
    [R * vcirc(R) = 4 * 1/4 = |lz|]. *)
Lemma rl_slow_doubling :
  Potential.rl unit Examples.vcirc_spec (Examples.brentq_model 0) 2
    (inl (Potential.Instance Examples.slow)) 1
  = Some (Ok 4).
Proof.
  unfold Potential.rl. rewrite Rabs_R1.
  set (Pot := inl (Potential.Instance Examples.slow) : Potential.anyPot unit).
  assert (Hup : Potential._rlFindStart unit Examples.vcirc_spec 2 1 1 Pot false
                = Some (Ok (2 * 1 * 2 ^ 1))).
  { apply (rlFindStart_loop_stops unit Examples.vcirc_spec false 1 Pot 2 1 eq_refl).
    - intros j Hj. assert (j = 0%nat) by lia. subst j.
      exists (2 * 1 * 2 ^ 0 * / 4 - 1). split.
      + apply slow_rlfunc. simpl. lra.
      + simpl. lra.
    - exists (2 * 1 * 2 ^ 1 * / 4 - 1). split.
      + apply slow_rlfunc. simpl. lra.
      + simpl. lra.
    - lia. }
  rewrite Hup.
  rewrite (brentq_model_exact _ _ _ _ (/ 10 ^ 5 * / 4 - 1) (2 * 1 * 2 ^ 1 * / 4 - 1)).
  - do 2 f_equal. simpl. field.
  - apply slow_rlfunc. lra.
  - apply slow_rlfunc. simpl. lra.
  - simpl. nra.
  - simpl. lra.
  - rewrite slow_rlfunc.
    + f_equal. simpl. field.
    + match goal with
      | |- ?x <> 0 => replace x with 4 by (simpl; field)
      end.
      lra.
Qed.

(** The statement about [rl] with the stand-in solver, whose tolerance is
    0, on the run above. *)
Lemma rl_bracket_then_root_find_witness :
  Potential.rl unit Examples.vcirc_spec (Examples.brentq_model 0) 3
    (inl (Potential.Instance Examples.flat)) (3 / 400000)
  = Some (Ok (3 / 400000)) /\
  exists vc,
    Examples.vcirc_spec (inl (Potential.Instance Examples.flat)) (3 / 400000) = Ok vc /\
    Rabs (3 / 400000 * vc - Rabs (3 / 400000)) <= 0.
Proof.
  split; [exact rl_flat_small_lz|].
  exact (proj2 (proj2 (proj2
           (rl_bracket_then_root_find unit Examples.vcirc_spec
              (Examples.brentq_model 0) 0
              (brentq_model_sign 0) (brentq_model_root 0)
              (inl (Potential.Instance Examples.flat)) (3 / 400000) 3)))
         (3 / 400000) rl_flat_small_lz).
Defined.

(** ** [lindbladR] on the quartic field

    With [Omega = R] and [kappa = sqrt(6) R] the equation of order 3 is
    linear in [R]; at the pattern speed [1 - sqrt(6)/3] its root is
    [R = 1], which the false-position step finds, and at the pattern speed
    [-1] it is positive at both ends of the interval. *)

Lemma quartic_lindblad (R : float) :
  0 < R ->
  Potential._lindbladR_eq unit Examples.to_planar Examples.planar_Rforces
    Examples.planar_R2derivs Examples.planar_isinstance Examples.planar_epifreq
    R (inl (Potential.Instance Examples.quartic)) (1 - sqrt 6 / 3) 3
  = Ok ((3 - sqrt 6) * (R - 1)).
Proof.
  intros HR.
  unfold Potential._lindbladR_eq, Potential.omegac, Potential.omegac_planar,
    Potential.epifreq, Potential.epifreq_method, truediv, Examples.planar_Rforces.
  cbn.
  destruct (Req_dec_T R 0) as [E|_]; [lra|]. cbn.
  replace (- (1 * - (R * (R * (R * 1)))) / R) with (R * R) by (field; lra).
  replace (1 * (3 * (R * (R * 1))) - 3 / R * (1 * - (R * (R * (R * 1)))))
    with (6 * (R * R)) by (field; lra).
  rewrite (sqrt_mult_alt 6 (R * R)) by lra. rewrite sqrt_square by lra.
  f_equal. lra.
Qed.

Lemma sqrt6_lt_3 : sqrt 6 < 3.
Proof.
  replace 3 with (sqrt 9).
  - apply sqrt_lt_1; lra.
  - replace 9 with (3 * 3) by lra. apply sqrt_square. lra.
Qed.

Lemma quartic_Omega (R : float) : 0 < R -> sqrt (- (1 * - R ^ 3) / R) = R.
Proof.
  intros HR. replace (- (1 * - R ^ 3) / R) with (R * R) by (field; lra).
  apply sqrt_square. lra.
Qed.

Lemma quartic_kappa (R : float) :
  0 < R -> sqrt (1 * (3 * R ^ 2) - 3 / R * (1 * - R ^ 3)) = sqrt 6 * R.
Proof.
  intros HR.
  replace (1 * (3 * R ^ 2) - 3 / R * (1 * - R ^ 3)) with (6 * (R * R)) by (field; lra).
  rewrite sqrt_mult_alt by lra. now rewrite sqrt_square by lra.
Qed.

Lemma quartic_radicands (R : float) :
  0 < R ->
  0 <= - (1 * - R ^ 3) / R /\ 0 <= 1 * (3 * R ^ 2) - 3 / R * (1 * - R ^ 3).
Proof.
  intros HR. split.
  - replace (- (1 * - R ^ 3) / R) with (R * R) by (field; lra). nra.
  - replace (1 * (3 * R ^ 2) - 3 / R * (1 * - R ^ 3)) with (6 * (R * R))
      by (field; lra).
    nra.
Qed.

Lemma lindbladR_fixed_interval_witness :
  Potential.lindbladR unit Examples.to_planar Examples.planar_Rforces
    Examples.planar_R2derivs Examples.planar_isinstance Examples.planar_epifreq
    (Examples.brentq_model 0)
    (inl (Potential.Instance Examples.quartic)) (1 - sqrt 6 / 3) (inr 3)
    Potential.no_kwargs
  = Ok (Some 1) /\
  Potential.lindbladR unit Examples.to_planar Examples.planar_Rforces
    Examples.planar_R2derivs Examples.planar_isinstance Examples.planar_epifreq
    (Examples.brentq_model 0)
    (inl (Potential.Instance Examples.quartic)) (-1) (inr 3)
    Potential.no_kwargs
  = Ok None.
Proof.
  pose proof sqrt6_lt_3 as H6.
  pose proof (sqrt_pos 6) as H6'.
  set (a := 1 / 10 ^ 7). set (b := 1000).
  assert (Ha : 0 < a) by (unfold a; lra).
  assert (Hb : 0 < b) by (unfold b; lra).
  set (A := 3 - sqrt 6).
  assert (Hx : a - A * (a - 1) * (b - a) / (A * (b - 1) - A * (a - 1)) = 1).
  { unfold a, b. field. unfold A. lra. }
  assert (Hsolve :
    Examples.brentq_model 0
      (fun R => Potential._lindbladR_eq unit Examples.to_planar Examples.planar_Rforces
                  Examples.planar_R2derivs Examples.planar_isinstance
                  Examples.planar_epifreq R
                  (inl (Potential.Instance Examples.quartic)) (1 - sqrt 6 / 3) 3)
      a b Potential.no_kwargs = Ok 1).
  { transitivity (@Ok float (a - A * (a - 1) * (b - a) / (A * (b - 1) - A * (a - 1))));
      [|f_equal; exact Hx].
    apply brentq_model_exact.
    - apply quartic_lindblad. exact Ha.
    - apply quartic_lindblad. exact Hb.
    - unfold a, b, A. nra.
    - unfold a, b, A. nra.
    - rewrite Hx. rewrite quartic_lindblad by lra. f_equal. lra. }
  split.
  - exact (proj1 (proj2 (proj2 (proj2 (proj2 (proj2
             (lindbladR_fixed_interval unit Examples.to_planar Examples.planar_Rforces
                Examples.planar_R2derivs Examples.planar_isinstance
                Examples.planar_epifreq (Examples.brentq_model 0) 0
                (brentq_model_sign 0) (brentq_model_root 0)
                (inl (Potential.Instance Examples.quartic)) (1 - sqrt 6 / 3)
                Potential.no_kwargs))))) 3 1 Hsolve)).
  - apply (proj1 (proj2 (proj2 (proj2
             (lindbladR_fixed_interval unit Examples.to_planar Examples.planar_Rforces
                Examples.planar_R2derivs Examples.planar_isinstance
                Examples.planar_epifreq (Examples.brentq_model 0) 0
                (brentq_model_sign 0) (brentq_model_root 0)
                (inl (Potential.Instance Examples.quartic)) (-1)
                Potential.no_kwargs))))
             3 (1 * - a ^ 3) (1 * (3 * a ^ 2)) (1 * - a ^ 3)
             (1 * - b ^ 3) (1 * (3 * b ^ 2)) (1 * - b ^ 3));
      try (left; reflexivity); try (split; reflexivity);
      fold a; fold b;
      rewrite ?quartic_Omega, ?quartic_kappa by assumption;
      try (apply (proj1 (quartic_radicands a Ha)));
      try (apply (proj2 (quartic_radicands a Ha)));
      try (apply (proj1 (quartic_radicands b Hb)));
      try (apply (proj2 (quartic_radicands b Hb))).
    apply Rmult_gt_0_compat; nra.
Defined.

(** * Further properties *)

(** ** planarOrbit.py: trajectories and diagnostics *)

Lemma broadcast_to_length (n : nat) (v w : list float) :
  nu.broadcast_to n v = Ok w -> length w = n.
Proof.
  unfold nu.broadcast_to. destruct (Nat.eqb (length v) n) eqn:E.
  - intros H. injection H as <-. now apply Nat.eqb_eq.
  - destruct v as [|x [|y v]]; try discriminate.
    intros H. injection H as <-. apply repeat_length.
Qed.

Lemma rows3_rows (a b c : list float) :
  Forall (fun row => length row = 3%nat) (rows3 a b c).
Proof.
  revert b c. induction a as [|x a IH]; intros [|y b] [|z c]; simpl;
    constructor; auto.
Qed.

Lemma rows4_rows (a b c d : list float) :
  Forall (fun row => length row = 4%nat) (rows4 a b c d).
Proof.
  revert b c d. induction a as [|x a IH]; intros [|y b] [|z c] [|w d]; simpl;
    constructor; auto.
Qed.

Lemma col_of_rows (j k : nat) (A : list (list float)) :
  Forall (fun row => length row = k) A -> (j < k)%nat ->
  exists c, nu.col j A = Ok c /\ length c = length A.
Proof.
  intros HA Hj. rewrite (col_well_shaped j k A HA Hj).
  eexists. split; [reflexivity|]. apply length_map.
Qed.

Section Trajectories.

Variable Potential3D : Type.
Variable planarPotential : Type.
Variable RZToplanarPotential : Potential3D -> planarPotential.
Variable evaluateplanarRforces : float -> planarPotential -> option float -> float -> float.
Variable evaluateplanarphiforces : float -> planarPotential -> option float -> float -> float.
Variable odeint : (list float -> float -> list float) -> list float -> list float -> float
                  -> list (list float).

Local Abbreviation _REOM := (planarOrbit._REOM planarPotential evaluateplanarRforces).
Local Abbreviation _EOM :=
  (planarOrbit._EOM planarPotential evaluateplanarRforces evaluateplanarphiforces).
Local Abbreviation _integrateROrbit :=
  (planarOrbit._integrateROrbit planarPotential evaluateplanarRforces odeint).
Local Abbreviation _integrateOrbit :=
  (planarOrbit._integrateOrbit planarPotential evaluateplanarRforces
     evaluateplanarphiforces odeint).
Local Abbreviation planarROrbit_integrate :=
  (planarOrbit.planarROrbit_integrate Potential3D planarPotential RZToplanarPotential
     evaluateplanarRforces odeint).
Local Abbreviation planarOrbit_integrate :=
  (planarOrbit.planarOrbit_integrate Potential3D planarPotential RZToplanarPotential
     evaluateplanarRforces evaluateplanarphiforces odeint).

Lemma integrateROrbit_shape (vxvv : list float) (pot : planarPotential)
  (ts : list float) (out : list (list float)) :
  _integrateROrbit vxvv pot ts = Ok out ->
  length out = length ts /\ Forall (fun row => length row = 3%nat) out.
Proof.
  unfold planarOrbit._integrateROrbit.
  destruct (nu.getitem vxvv 0) as [v0|]; [|discriminate]. cbn [bind].
  destruct (nu.getitem vxvv 2) as [v2|]; [|discriminate]. cbn [bind].
  destruct (nu.getitem vxvv 1) as [v1|]; [|discriminate]. cbn [bind].
  destruct (nu.col 0 _) as [c0|]; [|discriminate]. cbn [bind].
  destruct (nu.broadcast_to _ c0) as [o0|] eqn:E0; [|discriminate]. cbn [bind].
  destruct (nu.col 1 _) as [c1|]; [|discriminate]. cbn [bind].
  destruct (nu.broadcast_to _ c1) as [o1|] eqn:E1; [|discriminate]. cbn [bind].
  intros H. injection H as <-.
  apply broadcast_to_length in E0, E1. split; [|apply rows3_rows].
  rewrite rows3_length; rewrite ?length_map; congruence.
Qed.

Lemma integrateOrbit_shape (vxvv : list float) (pot : planarPotential)
  (ts : list float) (out : list (list float)) :
  _integrateOrbit vxvv pot ts = Ok out ->
  length out = length ts /\ Forall (fun row => length row = 4%nat) out.
Proof.
  unfold planarOrbit._integrateOrbit.
  destruct (nu.getitem vxvv 2) as [v2|]; [|discriminate]. cbn [bind].
  destruct (nu.getitem vxvv 0) as [v0|]; [|discriminate]. cbn [bind].
  destruct (truediv v2 v0) as [vphi|]; [|discriminate]. cbn [bind].
  destruct (nu.getitem vxvv 1) as [v1|]; [|discriminate]. cbn [bind].
  destruct (nu.getitem vxvv 3) as [v3|]; [|discriminate]. cbn [bind].
  destruct (nu.col 0 _) as [c0|]; [|discriminate]. cbn [bind].
  destruct (nu.broadcast_to _ c0) as [o0|] eqn:E0; [|discriminate]. cbn [bind].
  destruct (nu.col 1 _) as [c1|]; [|discriminate]. cbn [bind].
  destruct (nu.broadcast_to _ c1) as [o1|] eqn:E1; [|discriminate]. cbn [bind].
  destruct (nu.col 2 _) as [c2|]; [|discriminate]. cbn [bind].
  destruct (nu.broadcast_to _ c2) as [o3|] eqn:E2; [|discriminate]. cbn [bind].
  destruct (nu.col 3 _) as [c3|]; [|discriminate]. cbn [bind].
  destruct (nu.broadcast_to _ c3) as [w|] eqn:E3; [|discriminate]. cbn [bind].
  intros H. injection H as <-.
  apply broadcast_to_length in E0, E1, E2, E3. split; [|apply rows4_rows].
  rewrite rows4_length;
    rewrite ?length_map, ?length_combine; try congruence; lia.
Qed.

Lemma integrate_success_shape
  (self self' : planarOrbit.planarOrbitTop) (ts : list float) :
  (forall pot,
      planarROrbit_integrate self ts pot = Ok self' ->
      planarOrbit.t self' = Some ts /\
      exists out, planarOrbit.orbit self' = Some out /\
                  length out = length ts /\
                  Forall (fun row => length row = 3%nat) out) /\
  (forall pot,
      planarOrbit_integrate self ts pot = Ok self' ->
      planarOrbit.t self' = Some ts /\
      exists out, planarOrbit.orbit self' = Some out /\
                  length out = length ts /\
                  Forall (fun row => length row = 4%nat) out).
Proof.
  split; intros pot.
  - unfold planarOrbit.planarROrbit_integrate.
    destruct (_integrateROrbit _ _ ts) as [out|] eqn:E; [|discriminate].
    cbn [bind]. intros H. injection H as <-. cbn.
    split; [reflexivity|]. exists out. split; [reflexivity|].
    exact (integrateROrbit_shape _ _ _ _ E).
  - unfold planarOrbit.planarOrbit_integrate.
    destruct (_integrateOrbit _ _ ts) as [out|] eqn:E; [|discriminate].
    cbn [bind]. intros H. injection H as <-. cbn.
    split; [reflexivity|]. exists out. split; [reflexivity|].
    exact (integrateOrbit_shape _ _ _ _ E).
Qed.

(** X1.  Whenever [integrate] succeeds, in either mode, the orbit object
    holds the requested times and a trajectory with exactly one row per
    requested time, of three entries in radius-only mode and of four in
    full planar mode, whatever the ODE primitive returned. *)
Theorem integrate_aligns_trajectory_with_times
  (self self' : planarOrbit.planarOrbitTop) (ts : list float) :
  (forall pot,
      planarROrbit_integrate self ts pot = Ok self' ->
      planarOrbit.t self' = Some ts /\
      exists out, planarOrbit.orbit self' = Some out /\
                  length out = length ts /\
                  Forall (fun row => length row = 3%nat) out) /\
  (forall pot,
      planarOrbit_integrate self ts pot = Ok self' ->
      planarOrbit.t self' = Some ts /\
      exists out, planarOrbit.orbit self' = Some out /\
                  length out = length ts /\
                  Forall (fun row => length row = 4%nat) out).
Proof. exact (integrate_success_shape self self' ts). Qed.

(** X2.  The diagnostics follow the life cycle of the orbit object: on an
    object that was never integrated, [e], [rap], [rperi] and the
    full-planar [e] all raise [AttributeError]; after a successful
    radius-only integration over at least one time, of an object that has no
    cached radii, all of them return a value. *)
Theorem diagnostics_need_integration
  (self self' : planarOrbit.planarOrbitTop) (ts : list float) (pot : Potential3D) :
  (planarOrbit.orbit self = None ->
     planarOrbit.e self = Raise (AttributeError "Integrate the orbit first") /\
     planarOrbit.rap self = Raise (AttributeError "Integrate the orbit first") /\
     planarOrbit.rperi self = Raise (AttributeError "Integrate the orbit first") /\
     planarOrbit.planarOrbit_e self
     = Raise (AttributeError "Integrate the orbit first")) /\
  (planarOrbit.rs self = None -> ts <> [] ->
     planarROrbit_integrate self ts pot = Ok self' ->
     (exists v, value (planarOrbit.e self') = Ok v) /\
     (exists v, value (planarOrbit.rap self') = Ok v) /\
     (exists v, value (planarOrbit.rperi self') = Ok v) /\
     (exists v, planarOrbit.planarOrbit_e self' = Ok v)).
Proof.
  split.
  - intros H. unfold planarOrbit.e, planarOrbit.rap, planarOrbit.rperi,
      planarOrbit.planarOrbit_e, planarOrbit.ensure_rs. rewrite H.
    repeat split.
  - intros Hrs Hts Hint.
    destruct (proj1 (integrate_success_shape self self' ts) pot Hint)
      as [_ [out [Ho [Hl Hrows]]]].
    assert (Hrs' : planarOrbit.rs self' = None).
    { unfold planarOrbit.planarROrbit_integrate in Hint.
      destruct (_integrateROrbit _ _ ts); [|discriminate].
      cbn [bind] in Hint. injection Hint as <-. exact Hrs. }
    destruct (col_of_rows 0 3 out Hrows ltac:(lia)) as [c [Hc Hlc]].
    destruct c as [|x xs].
    { destruct ts; [contradiction|]. simpl in *. lia. }
    unfold planarOrbit.e, planarOrbit.rap, planarOrbit.rperi,
      planarOrbit.planarOrbit_e, planarOrbit.ensure_rs, planarOrbit.col0_squared.
    rewrite Ho, Hrs', Hc. cbn. repeat split; eauto.
Qed.

End Trajectories.






Section Dynamics.

Variable Potential3D : Type.
Variable planarPotential : Type.
Variable RZToplanarPotential : Potential3D -> planarPotential.
Variable evaluateplanarRforces : float -> planarPotential -> option float -> float -> float.
Variable evaluateplanarphiforces : float -> planarPotential -> option float -> float -> float.
Variable odeint : (list float -> float -> list float) -> list float -> list float -> float
                  -> list (list float).

Local Abbreviation _REOM := (planarOrbit._REOM planarPotential evaluateplanarRforces).
Local Abbreviation _EOM :=
  (planarOrbit._EOM planarPotential evaluateplanarRforces evaluateplanarphiforces).
Local Abbreviation planarROrbit_integrate :=
  (planarOrbit.planarROrbit_integrate Potential3D planarPotential RZToplanarPotential
     evaluateplanarRforces odeint).
Local Abbreviation planarOrbit_integrate :=
  (planarOrbit.planarOrbit_integrate Potential3D planarPotential RZToplanarPotential
     evaluateplanarRforces evaluateplanarphiforces odeint).

(** X4.  [integrate] does not clear the cached radii: on an object whose
    [rs] was filled by an earlier diagnostic, a later integration, in
    either mode, leaves [rap] and [rperi] at the extremes of the cached
    values, whatever the new trajectory is. *)
Theorem integrate_keeps_cached_radii
  (self self' : planarOrbit.planarOrbitTop) (ts v : list float) :
  planarOrbit.rs self = Some v ->
  (forall pot, planarROrbit_integrate self ts pot = Ok self' ->
     value (planarOrbit.rap self') = nu.amax v /\
     value (planarOrbit.rperi self') = nu.amin v) /\
  (forall pot, planarOrbit_integrate self ts pot = Ok self' ->
     value (planarOrbit.rap self') = nu.amax v /\
     value (planarOrbit.rperi self') = nu.amin v).
Proof.
  intros Hrs. split; intros pot.
  - unfold planarOrbit.planarROrbit_integrate.
    destruct (planarOrbit._integrateROrbit _ _ _ _ _ ts) as [out|]; [|discriminate].
    cbn [bind]. intros H. injection H as <-.
    unfold planarOrbit.rap, planarOrbit.rperi, planarOrbit.ensure_rs. cbn.
    rewrite Hrs. cbn.
    split; [destruct (nu.amax v) | destruct (nu.amin v)]; reflexivity.
  - unfold planarOrbit.planarOrbit_integrate.
    destruct (planarOrbit._integrateOrbit _ _ _ _ _ _ ts) as [out|]; [|discriminate].
    cbn [bind]. intros H. injection H as <-.
    unfold planarOrbit.rap, planarOrbit.rperi, planarOrbit.ensure_rs. cbn.
    rewrite Hrs. cbn.
    split; [destruct (nu.amax v) | destruct (nu.amin v)]; reflexivity.
Qed.

End Dynamics.

(** A new integration of an orbit whose cache holds [1; 4]. *)
Lemma integrate_keeps_cached_radii_witness :
  exists self',
    planarOrbit.planarROrbit_integrate unit unit MoreExamples.project
      Examples.kepler_Rforce Examples.euler_odeint MoreExamples.cached_orbit [0] tt
    = Ok self' /\
    value (planarOrbit.rap self') = nu.amax [1; 4] /\
    value (planarOrbit.rperi self') = nu.amin [1; 4].
Proof.
  eexists. split; [reflexivity|].
  exact (proj1 (integrate_keeps_cached_radii unit unit MoreExamples.project
                  Examples.kepler_Rforce Examples.kepler_phiforce
                  Examples.euler_odeint MoreExamples.cached_orbit _ [0] [1; 4]
                  eq_refl) tt eq_refl).
Defined.

(** ** Potential.py: lists, derivative orders and the Poisson density *)

Section PotentialAlgebra.

Import Potential.

(** X12.  A one-member list against the member itself, for any of the
    nine operations: a value of the member is the value of the list and an
    error of the member is the error of the list, but where the member
    returns [None] the list raises [TypeError]. *)
Theorem singleton_list_and_instance (op : operation) (p : Potential) (R z : float)
  (phi : option float) (t : float) :
  (forall v, evaluate op (Instance p) R z phi t = Ok (Some v) ->
             evaluate op (PotList [p]) R z phi t = Ok (Some v)) /\
  (evaluate op (Instance p) R z phi t = Ok None ->
   evaluate op (PotList [p]) R z phi t = Raise (TypeError msg_add_None)) /\
  (forall e, evaluate op (Instance p) R z phi t = Raise e ->
             evaluate op (PotList [p]) R z phi t = Raise e).
Proof.
  rewrite !evaluate_gated. unfold gated.
  rewrite isNonAxi_list. cbn [_isNonAxi existsb]. rewrite orb_false_r.
  destruct (isNonAxi p && is_None phi).
  - repeat split; intros; congruence.
  - cbn [sum_loop_opt]. unfold some.
    destruct (member_call op p R z phi t) as [[v|]|e]; cbn [bind];
      repeat split; intros; try discriminate; try congruence.
    injection H as <-. do 2 f_equal. lra.
Qed.

(** X13.  [_call_nodecorator] supports exactly six derivative orders:
    for every other pair [(dR,dphi)], negative orders included, it raises
    [NotImplementedError] without consulting the field. *)
Theorem higher_derivatives_not_implemented (self : Potential) (R z : float)
  (phi : option float) (t : float) (dR dphi : Z) :
  ~ In (dR, dphi) [(0, 0); (1, 0); (0, 1); (2, 0); (0, 2); (1, 1)]%Z ->
  _call_nodecorator self R z phi t dR dphi
  = Raise (NotImplementedError msg_higher_order).
Proof.
  intros H. unfold _call_nodecorator.
  repeat (match goal with
          | |- context [(?a =? ?b)%Z] =>
              destruct (Z.eqb_spec a b); subst; cbn [andb orb negb]
          end);
    try reflexivity; exfalso; apply H; simpl; tauto.
Qed.

(** X14.  The density taken from the Poisson equation (because
    [forcepoisson] is set or there is no raw density).  For an
    axisymmetric field that has no raw second azimuthal derivative, at a
    radius where neither divisor [R] nor [R**2.] is zero, it has no
    azimuthal term: it is [(-F_R/R + d2Phi/dR2 + d2Phi/dz2)/4./pi].  At
    [R = 0], once the radial force has been found, the quotient of the
    force by [R] raises [ZeroDivisionError]. *)
Theorem poisson_density_axisymmetric (self : Potential) (R z : float)
  (phi : option float) (t : float) (forcepoisson : bool) :
  forcepoisson = true \/ _dens self = None ->
  (forall fR d2R d2z,
      isNonAxi self = false -> _phi2deriv self = None ->
      R <> 0 -> R ^ 2 <> 0 ->
      Rforce self R z phi t = Ok fR ->
      R2deriv self R z phi t = Ok d2R ->
      z2deriv self R z phi t = Ok d2z ->
      dens self R z phi t forcepoisson = Ok ((- fR / R + d2R + d2z) / 4 / PI)) /\
  (forall fR,
      Rforce self 0 z phi t = Ok fR ->
      dens self 0 z phi t forcepoisson = Raise (ZeroDivisionError msg_div)).
Proof.
  intros Hfall.
  assert (E : (if forcepoisson then None else _dens self) = None)
    by (destruct Hfall as [-> | ->]; [reflexivity | now destruct forcepoisson]).
  split.
  - intros fR d2R d2z Hax Hp HR HR2 HfR Hd2R Hd2z. unfold dens, truediv.
    rewrite E, HfR. cbn [bind].
    destruct (Req_dec_T R 0) as [E0|_]; [contradiction|]. cbn [bind].
    rewrite Hd2R. unfold phi2deriv. rewrite Hp, Hax. cbn [bind].
    destruct (Req_dec_T (R ^ 2) 0) as [E0|_]; [contradiction|]. cbn [bind].
    rewrite Hd2z. cbn [bind]. f_equal. unfold Rdiv. ring.
  - intros fR HfR. unfold dens, truediv. rewrite E, HfR. cbn [bind].
    destruct (Req_dec_T 0 0) as [_|H]; [reflexivity | contradiction].
Qed.

End PotentialAlgebra.

(** A third radial derivative. *)
Lemma higher_derivatives_not_implemented_witness :
  Potential._call_nodecorator Examples.flat 1 0 (Some 0) 0 3 0
  = Raise (NotImplementedError Potential.msg_higher_order).
Proof.
  apply higher_derivatives_not_implemented.
  simpl. intuition congruence.
Defined.

(** The Poisson density of the harmonic field, off and on the axis. *)
Lemma poisson_density_axisymmetric_witness :
  Potential.dens MoreExamples.harmonic 2 1 (Some 0) 0 true
  = Ok ((- (1 * - 2) / 2 + 1 * 1 + 1 * 1) / 4 / PI) /\
  Potential.dens MoreExamples.harmonic 0 1 (Some 0) 0 true
  = Raise (ZeroDivisionError msg_div).
Proof.
  split.
  - apply (proj1 (poisson_density_axisymmetric MoreExamples.harmonic 2 1 (Some 0) 0
                    true (or_introl eq_refl)) (1 * - 2) (1 * 1) (1 * 1));
      try reflexivity; lra.
  - exact (proj2 (poisson_density_axisymmetric MoreExamples.harmonic 2 1 (Some 0) 0
                    true (or_introl eq_refl)) (1 * - 0) eq_refl).
Defined.

(** ** Potential.py: the vertical frequency without an azimuth *)

Section KinematicRelations.

Import Potential.
Import Kinematic.

(** X19.  The module-level [verticalfreq] does not pass an azimuth: on a
    list with a non-axisymmetric member it raises the "azimuth required"
    error, while on a non-axisymmetric instance it returns the value of
    the method, which takes the second vertical derivative at the default
    [phi = 0]. *)
Theorem module_kinematics_without_azimuth (p : Potential) (ps : list Potential)
  (R : float) :
  (_isNonAxi (PotList ps) = true ->
     verticalfreq (PotList ps) R = Raise (PotentialError msg_no_phi)) /\
  (isNonAxi p = true ->
     verticalfreq (PotList [p]) R = Raise (PotentialError msg_no_phi) /\
     verticalfreq (Instance p) R
     = bind (z2deriv p R 0 (Some 0) 0) (fun d => Ok (sqrt d))).
Proof.
  split.
  - intros H. unfold verticalfreq, evaluatez2derivs. rewrite H. reflexivity.
  - intros H. unfold verticalfreq, evaluatez2derivs. cbn [_isNonAxi map forallb].
    rewrite H. split; reflexivity.
Qed.

End KinematicRelations.

Lemma module_kinematics_without_azimuth_witness :
  Kinematic.verticalfreq (Potential.PotList [MoreExamples.lopsided]) 1
  = Raise (PotentialError Potential.msg_no_phi) /\
  Kinematic.verticalfreq (Potential.Instance MoreExamples.lopsided) 1
  = Ok (sqrt (1 * (1 + 0 ^ 2))).
Proof.
  exact (proj2 (module_kinematics_without_azimuth MoreExamples.lopsided
                  [MoreExamples.lopsided] 1) eq_refl).
Defined.

(** ** Potential.py: more on the bracket search and the resonances *)

Section BracketSearch.

Import Potential.

Variable planarArg : Type.
Variable RZToplanarPotential : anyPot planarArg -> planarArg.
Variable evaluateplanarRforces : anyPot planarArg -> float -> result float.
Variable evaluateplanarR2derivs : anyPot planarArg -> float -> result float.
Variable planar_isinstance : planarArg -> bool.
Variable planar_epifreq : planarArg -> float -> result float.
Variable vcirc : anyPot planarArg -> float -> result float.
Variable brentq : (float -> result float) -> float -> float -> brentq_kwargs
                  -> result float.

Local Abbreviation _rlfunc := (Potential._rlfunc planarArg vcirc).
Local Abbreviation _rlFindStart_loop := (Potential._rlFindStart_loop planarArg vcirc).
Local Abbreviation _rlFindStart := (Potential._rlFindStart planarArg vcirc).
Local Abbreviation rl := (Potential.rl planarArg vcirc brentq).
Local Abbreviation lindbladR :=
  (Potential.lindbladR planarArg RZToplanarPotential evaluateplanarRforces
     evaluateplanarR2derivs planar_isinstance planar_epifreq brentq).
Local Abbreviation _corotationR_eq :=
  (Potential._corotationR_eq planarArg RZToplanarPotential evaluateplanarRforces).
Local Abbreviation _lindbladR_eq :=
  (Potential._lindbladR_eq planarArg RZToplanarPotential evaluateplanarRforces
     evaluateplanarR2derivs planar_isinstance planar_epifreq).

Lemma rlFindStart_loop_sound (lower : bool) (lz : float) (pot : anyPot planarArg)
  (c : float) :
  c = (if lower then / 2 else 2) ->
  forall (fuel : nat) (rtry r : float),
    _rlFindStart_loop fuel rtry lz pot lower = Some (Ok r) ->
    exists k,
      (k < fuel)%nat /\ r = rtry * c ^ k /\
      (exists v, _rlfunc r lz pot = Ok v /\ ~ (2 * b2R lower - 1) * v > 0) /\
      (forall j, (j < k)%nat ->
         exists v, _rlfunc (rtry * c ^ j) lz pot = Ok v /\
                   (2 * b2R lower - 1) * v > 0).
Proof.
  intros Hc. induction fuel as [|fuel IH]; intros rtry r; [discriminate|].
  cbn [Potential._rlFindStart_loop].
  destruct (_rlfunc rtry lz pot) as [v|e] eqn:Ev; [|discriminate].
  destruct (Rgt_dec ((2 * b2R lower - 1) * v) 0) as [Hgo|Hstop].
  - assert (Enext : (if lower then rtry / 2 else rtry * 2) = rtry * c)
      by (rewrite Hc; destruct lower; lra).
    rewrite Enext. intros H.
    destruct (IH _ _ H) as [k [Hk [Er [Hr Hbefore]]]].
    exists (S k). split; [lia|]. split; [|split].
    + rewrite Er. simpl. ring.
    + exact Hr.
    + intros [|j] Hj.
      * exists v. split; [|exact Hgo].
        replace (rtry * c ^ 0) with rtry by (simpl; lra). exact Ev.
      * destruct (Hbefore j ltac:(lia)) as [w [Hw Hw']].
        exists w. split; [|exact Hw'].
        replace (rtry * c ^ S j) with (rtry * c * c ^ j) by (simpl; ring). exact Hw.
  - intros H. injection H as <-. exists 0%nat.
    split; [lia|]. split; [simpl; ring|]. split.
    + exists v. split; [exact Ev | exact Hstop].
    + intros j Hj. lia.
Qed.

(** X20.  What the bracket search returns is the first trial at which the
    sign condition fails.  If the doubling search from [2 rl] returns
    [r], then [r = 2 rl 2^k] for some [k] below the number of loop tests
    allowed, [f(r) >= 0], and [f < 0] at every earlier trial [2 rl 2^j];
    if the halving search returns [r], then [r = 2 rl / 2^k],
    [f(r) <= 0], and [f > 0] at every earlier trial.  Here
    [f(R) = R vcirc(R) - lz]. *)
Theorem rlFindStart_returns_first_sign_change (fuel : nat) (rl0 lz r : float)
  (pot : anyPot planarArg) :
  (_rlFindStart fuel rl0 lz pot false = Some (Ok r) ->
     exists k, (k < fuel)%nat /\ r = 2 * rl0 * 2 ^ k /\
       (exists v, _rlfunc r lz pot = Ok v /\ 0 <= v) /\
       (forall j, (j < k)%nat ->
          exists v, _rlfunc (2 * rl0 * 2 ^ j) lz pot = Ok v /\ v < 0)) /\
  (_rlFindStart fuel rl0 lz pot true = Some (Ok r) ->
     exists k, (k < fuel)%nat /\ r = 2 * rl0 * (/ 2) ^ k /\
       (exists v, _rlfunc r lz pot = Ok v /\ v <= 0) /\
       (forall j, (j < k)%nat ->
          exists v, _rlfunc (2 * rl0 * (/ 2) ^ j) lz pot = Ok v /\ 0 < v)).
Proof.
  split; intros H.
  - destruct (rlFindStart_loop_sound false lz pot 2 eq_refl fuel (2 * rl0) r H)
      as [k [Hk [Er [[v [Hv Hs]] Hb]]]].
    exists k. split; [exact Hk|]. split; [exact Er|]. split.
    + exists v. split; [exact Hv|]. simpl in Hs. lra.
    + intros j Hj. destruct (Hb j Hj) as [w [Hw Hg]].
      exists w. split; [exact Hw|]. simpl in Hg. lra.
  - destruct (rlFindStart_loop_sound true lz pot (/ 2) eq_refl fuel (2 * rl0) r H)
      as [k [Hk [Er [[v [Hv Hs]] Hb]]]].
    exists k. split; [exact Hk|]. split; [exact Er|]. split.
    + exists v. split; [exact Hv|]. simpl in Hs. lra.
    + intros j Hj. destruct (Hb j Hj) as [w [Hw Hg]].
      exists w. split; [exact Hw|]. simpl in Hg. lra.
Qed.

Lemma lower_ascii_idempotent (c : ascii) :
  lower_ascii (lower_ascii c) = lower_ascii c.
Proof.
  destruct c as [[] [] [] [] [] [] [] []]; reflexivity.
Qed.

Lemma lower_idempotent (s : string) : lower (lower s) = lower s.
Proof.
  induction s as [|c s IH]; simpl; [reflexivity|].
  now rewrite lower_ascii_idempotent, IH.
Qed.

(** X21.  The errors of [lindbladR].  A string [m] is read without regard
    to case; one that does not contain "corot" is refused with [IOError]
    before the solver is called.  Of the errors of the solver only
    [ValueError] is turned into the result [None]: any other error, raised
    by the solver or by the equation it evaluates, is the error of the
    call, in both modes. *)
Theorem lindbladR_errors (Pot : anyPot planarArg) (OmegaP : float)
  (kwargs : brentq_kwargs) :
  (forall s, lindbladR Pot OmegaP (inl s) kwargs
             = lindbladR Pot OmegaP (inl (lower s)) kwargs) /\
  (forall s, str_in "corot" (lower s) = false ->
             lindbladR Pot OmegaP (inl s) kwargs = Raise (IOError msg_m)) /\
  (forall e, (forall msg, e <> ValueError msg) ->
     (brentq (fun R => _corotationR_eq R Pot OmegaP) (1 / 10 ^ 7) 1000 kwargs
      = Raise e ->
      lindbladR Pot OmegaP (inl "corotation"%string) kwargs = Raise e) /\
     (forall m,
        brentq (fun R => _lindbladR_eq R Pot OmegaP m) (1 / 10 ^ 7) 1000 kwargs
        = Raise e ->
        lindbladR Pot OmegaP (inr m) kwargs = Raise e)).
Proof.
  split; [|split].
  - intros s. unfold Potential.lindbladR. now rewrite lower_idempotent.
  - intros s H. unfold Potential.lindbladR. now rewrite H.
  - intros e He. split.
    + intros H. unfold Potential.lindbladR.
      change (str_in "corot" (lower "corotation")) with true. cbv iota.
      rewrite H. destruct e; try reflexivity. exfalso. exact (He msg eq_refl).
    + intros m H. unfold Potential.lindbladR. rewrite H.
      destruct e; try reflexivity. exfalso. exact (He msg eq_refl).
Qed.

End BracketSearch.

(** A doubling search that returns after one doubling. *)
Lemma rlFindStart_returns_first_sign_change_witness :
  exists k, (k < 2)%nat /\ 2 * 1 * 2 ^ 1 = 2 * 1 * 2 ^ k /\
    (exists v, Potential._rlfunc unit Examples.vcirc_spec (2 * 1 * 2 ^ 1) 1
                 (inl (Potential.Instance Examples.slow)) = Ok v /\ 0 <= v) /\
    (forall j, (j < k)%nat ->
       exists v, Potential._rlfunc unit Examples.vcirc_spec (2 * 1 * 2 ^ j) 1
                   (inl (Potential.Instance Examples.slow)) = Ok v /\ v < 0).
Proof.
  apply (proj1 (rlFindStart_returns_first_sign_change unit Examples.vcirc_spec
                  2 1 1 (2 * 1 * 2 ^ 1) (inl (Potential.Instance Examples.slow)))).
  apply (rlFindStart_loop_stops unit Examples.vcirc_spec false 1
           (inl (Potential.Instance Examples.slow)) 2 1 eq_refl).
  - intros j Hj. assert (j = 0%nat) by lia. subst j.
    exists (2 * 1 * 2 ^ 0 * / 4 - 1). split.
    + apply slow_rlfunc. simpl. lra.
    + simpl. lra.
  - exists (2 * 1 * 2 ^ 1 * / 4 - 1). split.
    + apply slow_rlfunc. simpl. lra.
    + simpl. lra.
  - lia.
Defined.

(** ** Potential.py: construction, unit output and capability queries *)

Section Setup.

Import Potential.
Import PotentialSetup.

Variable Quantity : Type.
Variable to_value : Quantity -> astropy_unit -> option float.
Variable config_ro : float.
Variable config_vo : float.
Variable mass_in_msol : float -> float -> float.
Variable dens_in_msolpc3 : float -> float -> float.
Variable surfdens_in_msolpc2 : float -> float -> float.
Variable _G : float.

Local Abbreviation __init__ :=
  (PotentialSetup.__init__ Quantity to_value config_ro config_vo mass_in_msol
     dens_in_msolpc3 surfdens_in_msolpc2 _G).
Local Abbreviation parse_amp :=
  (PotentialSetup.parse_amp Quantity to_value mass_in_msol dens_in_msolpc3
     surfdens_in_msolpc2 _G).
Local Abbreviation turn_physical_on :=
  (PotentialSetup.turn_physical_on Quantity to_value).

Lemma member_call_set_ro (op : operation) (self : Potential) (ro : float) (b : bool)
  (R z : float) (phi : option float) (t : float) :
  member_call op (set_ro self ro b) R z phi t = member_call op self R z phi t.
Proof. destruct op; reflexivity. Qed.

Lemma member_call_set_vo (op : operation) (self : Potential) (vo : float) (b : bool)
  (R z : float) (phi : option float) (t : float) :
  member_call op (set_vo self vo b) R z phi t = member_call op self R z phi t.
Proof. destruct op; reflexivity. Qed.

(** X22.  The unit toggles change nothing but the unit attributes: after
    [turn_physical_off], and after a [turn_physical_on] that succeeds, each
    of the nine operations (in internal units) returns what it returned
    before, and the amplitude is the same; [turn_physical_off] clears both
    flags and leaves [ro] and [vo]; [turn_physical_on] sets both flags. *)
Theorem unit_toggles_preserve_values (op : operation) (self : Potential)
  (R z : float) (phi : option float) (t : float) :
  (member_call op (turn_physical_off self) R z phi t = member_call op self R z phi t /\
   _amp (turn_physical_off self) = _amp self /\
   _roSet (turn_physical_off self) = false /\
   _voSet (turn_physical_off self) = false /\
   _ro (turn_physical_off self) = _ro self /\
   _vo (turn_physical_off self) = _vo self) /\
  (forall ro vo self',
      turn_physical_on self ro vo = Done self' ->
      member_call op self' R z phi t = member_call op self R z phi t /\
      _amp self' = _amp self /\
      _roSet self' = true /\ _voSet self' = true /\
      (ro = None -> _ro self' = _ro self) /\
      (vo = None -> _vo self' = _vo self)).
Proof.
  split.
  - repeat split; try (destruct op; reflexivity).
  - intros ro vo self'. unfold PotentialSetup.turn_physical_on.
    destruct ro as [x|]; destruct vo as [y|]; cbn [ubind];
      try (destruct (in_units Quantity to_value x u_kpc) as [r|]; [|discriminate]);
      cbn [ubind];
      try (destruct (in_units Quantity to_value y u_km_s) as [v|]; [|discriminate]);
      cbn [ubind];
      intros H; injection H as <-;
      rewrite ?member_call_set_vo, ?member_call_set_ro;
      repeat split; intros; try discriminate; reflexivity.
Qed.

Lemma units_are_true (amp_units : option string) (name : string) :
  units_are amp_units name = true -> amp_units = Some name.
Proof.
  destruct amp_units as [s|]; simpl; [|discriminate].
  intros H. apply String.eqb_eq in H. now subst.
Qed.

Lemma parse_amp_success (cls : string) (amp_units : option string) (q : Quantity)
  (vo ro a : float) :
  parse_amp cls amp_units q vo ro = Done a ->
  In amp_units [Some "velocity2"; Some "mass"; Some "density"; Some "surfacedensity"]%string.
Proof.
  unfold PotentialSetup.parse_amp.
  repeat (match goal with
          | |- context [match to_value ?q ?u with _ => _ end] =>
              destruct (to_value q u)
          | |- context [if units_are ?a ?n then _ else _] =>
              destruct (units_are a n) eqn:?
          end);
    try discriminate; intros _;
    match goal with
    | H : units_are _ _ = true |- _ => apply units_are_true in H; rewrite H
    end; simpl; tauto.
Qed.

(** X23.  A Quantity amplitude in the constructor.  When the constructor
    succeeds, both unit-output flags are set and the expected units
    [amp_units] of the class are one of "velocity2", "mass", "density" and
    "surfacedensity"; so for a class that declares any other [amp_units],
    such as the "unitless" of the SCF potential, or none, every Quantity
    amplitude is refused with [UnitConversionError]. *)
Theorem init_with_quantity_amplitude (self : Potential) (cls : string) (q : Quantity)
  (ro vo : option (float + Quantity)) (amp_units : option string) :
  (forall p,
      __init__ self cls (inr q) ro vo amp_units = Done p ->
      _roSet p = true /\ _voSet p = true /\
      In amp_units
        [Some "velocity2"; Some "mass"; Some "density"; Some "surfacedensity"]%string) /\
  (~ In amp_units
       [Some "velocity2"; Some "mass"; Some "density"; Some "surfacedensity"]%string ->
   exists msg, __init__ self cls (inr q) ro vo amp_units = UnitConversionError msg) /\
  (exists msg,
      __init__ self cls (inr q) ro vo (Some "unitless"%string)
      = UnitConversionError msg).
Proof.
  assert (Hsucc : forall au p,
             __init__ self cls (inr q) ro vo au = Done p ->
             _roSet p = true /\ _voSet p = true /\
             In au [Some "velocity2"; Some "mass"; Some "density";
                    Some "surfacedensity"]%string).
  { intros au p. unfold PotentialSetup.__init__.
    destruct (match ro with
              | Some x => _
              | None => _
              end) as [r|]; [|discriminate]. cbn [ubind].
    destruct (match vo with
              | Some x => _
              | None => _
              end) as [v|]; [|discriminate]. cbn [ubind].
    destruct (parse_amp cls au q (fst v) (fst r)) as [a|] eqn:E; [|discriminate].
    cbn [ubind]. intros H. injection H as <-. cbn.
    repeat split. exact (parse_amp_success _ _ _ _ _ _ E). }
  assert (Hfail : forall au,
             ~ In au [Some "velocity2"; Some "mass"; Some "density";
                      Some "surfacedensity"]%string ->
             exists msg, __init__ self cls (inr q) ro vo au = UnitConversionError msg).
  { intros au Hn.
    destruct (__init__ self cls (inr q) ro vo au) as [p|msg] eqn:E.
    - exfalso. apply Hn. exact (proj2 (proj2 (Hsucc au p E))).
    - eauto. }
  split; [exact (Hsucc amp_units)|]. split; [exact (Hfail amp_units)|].
  apply Hfail. simpl. intuition discriminate.
Qed.

(** X24.  A float amplitude in the constructor, with [ro] and [vo] each
    absent or a float: the constructor succeeds whatever [amp_units] is, the
    amplitude is stored as given, a field starts three-dimensional and
    axisymmetric, each unit-output flag is set exactly when the
    corresponding scale was given, and an absent scale takes the default
    of the configuration. *)
Theorem init_with_float_amplitude (self : Potential) (cls : string) (a : float)
  (ro vo : option float) (amp_units : option string) :
  exists p,
    __init__ self cls (inl a) (option_map inl ro) (option_map inl vo) amp_units
    = Done p /\
    _amp p = a /\ dim p = 3%Z /\ isNonAxi p = false /\
    _roSet p = negb (is_None ro) /\ _voSet p = negb (is_None vo) /\
    _ro p = match ro with Some r => r | None => config_ro end /\
    _vo p = match vo with Some v => v | None => config_vo end /\
    _Rforce p = _Rforce self /\ _evaluate p = _evaluate self.
Proof.
  destruct ro as [r|]; destruct vo as [v|]; eexists;
    (split; [reflexivity|]); cbn; repeat split.
Qed.

Lemma fold_min_le_init (xs : list Z) (a : Z) : (fold_left Z.min xs a <= a)%Z.
Proof.
  revert a. induction xs as [|x xs IH]; intros a; simpl; [lia|].
  specialize (IH (Z.min a x)). lia.
Qed.

Lemma fold_min_lower_bound (xs : list Z) (a x : Z) :
  In x xs -> (fold_left Z.min xs a <= x)%Z.
Proof.
  revert a. induction xs as [|y xs IH]; intros a; simpl; [tauto|].
  intros [-> | H].
  - pose proof (fold_min_le_init xs (Z.min a x)). lia.
  - now apply IH.
Qed.

Lemma fold_min_attained (xs : list Z) (a : Z) :
  fold_left Z.min xs a = a \/ In (fold_left Z.min xs a) xs.
Proof.
  revert a. induction xs as [|y xs IH]; intros a; simpl; [now left|].
  destruct (IH (Z.min a y)) as [H|H].
  - rewrite H. destruct (Z.min_spec a y) as [[_ E]|[_ E]]; rewrite E; auto.
  - auto.
Qed.

(** X25.  The capability queries on a list.  [_check_c] holds exactly
    when every member has a C implementation.  [_dim] of a non-empty list
    is the smallest of the members' dimensions; of the empty list it
    raises [ValueError], although [_isNonAxi] counts the empty list as
    axisymmetric. *)
Theorem capability_queries_on_lists (ps : list Potential) :
  (_check_c (PotList ps) = true <-> forall p, In p ps -> hasC p = true) /\
  (ps <> [] ->
     exists d, _dim (PotList ps) = Ok d /\
               (forall p, In p ps -> (d <= dim p)%Z) /\
               (exists p, In p ps /\ dim p = d)) /\
  (exists msg, _dim (PotList []) = Raise (ValueError msg)) /\
  _isNonAxi (PotList []) = false.
Proof.
  split; [|split; [|split]].
  - unfold _check_c. rewrite forallb_forall. split.
    + intros H p Hp. apply H. apply in_map_iff. eauto.
    + intros H b Hb. apply in_map_iff in Hb. destruct Hb as [p [<- Hp]]. auto.
  - intros Hne. destruct ps as [|p0 ps]; [contradiction|].
    unfold _dim, amin_int. cbn [map]. eexists. split; [reflexivity|]. split.
    + intros p [<- | Hp].
      * apply fold_min_le_init.
      * apply fold_min_lower_bound. apply in_map_iff. eauto.
    + destruct (fold_min_attained (map dim ps) (dim p0)) as [E|Hin].
      * exists p0. split; [now left | now rewrite E].
      * apply in_map_iff in Hin. destruct Hin as [p [E Hp]].
        exists p. split; [now right | exact E].
  - eexists. reflexivity.
  - reflexivity.
Qed.

End Setup.

(** ** SCFPotential.py: the Gegenbauer table and the spherical fit *)

Section SCFTables.

Import SCFPotential.
Import SCFCoefficients.

Lemma existsb_eqb_seq (x n : nat) :
  existsb (Nat.eqb x) (seq 0 n) = (x <? n)%nat.
Proof.
  destruct (Nat.ltb_spec x n) as [H|H].
  - apply existsb_exists. exists x. split; [apply in_seq; lia | apply Nat.eqb_refl].
  - destruct (existsb (Nat.eqb x) (seq 0 n)) eqn:E; [|reflexivity].
    apply existsb_exists in E. destruct E as [y [Hy Exy]].
    apply in_seq in Hy. apply Nat.eqb_eq in Exy. lia.
Qed.

Lemma gegenbauer_step (alpha xi : float) (k : nat) :
  gegenbauer alpha xi (S (S k))
  = / (INR (S k) + 1) *
    (2 * (INR (S k) + alpha) * xi * gegenbauer alpha xi (S k)
     - (INR (S k) + 2 * alpha - 1) * gegenbauer alpha xi k).
Proof. reflexivity. Qed.

Lemma C_body_other_column (xi : float) (N l n : nat) (CC : table2) (n' l' : nat) :
  l' <> l -> _C_body xi N l n CC n' l' = CC n' l'.
Proof.
  intros H. apply Nat.eqb_neq in H. unfold _C_body, upd2.
  destruct (n =? 0)%nat; [now rewrite H, andb_false_r|].
  destruct (negb (n + 1 =? N)%nat); destruct (n =? 1)%nat;
    rewrite ?H, ?andb_false_r; reflexivity.
Qed.

Lemma C_body_other_row (xi : float) (N l n : nat) (CC : table2) (n' : nat) :
  n' <> n -> (n' <> n + 1)%nat -> _C_body xi N l n CC n' l = CC n' l.
Proof.
  intros H1 H2. apply Nat.eqb_neq in H1, H2. unfold _C_body, upd2.
  destruct (n =? 0)%nat.
  - now rewrite H1.
  - destruct (negb (n + 1 =? N)%nat); destruct (n =? 1)%nat;
      rewrite ?H2, ?H1; cbn [andb]; reflexivity.
Qed.

Lemma C_body_above (xi : float) (N l n : nat) (CC : table2) (n' : nat) :
  (n < N)%nat -> (N <= n')%nat -> _C_body xi N l n CC n' l = CC n' l.
Proof.
  intros Hn Hn'.
  assert (H1 : (n' =? n)%nat = false) by (apply Nat.eqb_neq; lia).
  unfold _C_body, upd2.
  destruct (n =? 0)%nat; [now rewrite H1|].
  destruct (Nat.eqb_spec (n + 1) N) as [E|E]; cbn [negb].
  - destruct (n =? 1)%nat; rewrite ?H1; reflexivity.
  - assert (H2 : (n' =? n + 1)%nat = false) by (apply Nat.eqb_neq; lia).
    destruct (n =? 1)%nat; rewrite ?H2, ?H1; reflexivity.
Qed.

(** The inner loop of [_C] over the first [k] radial orders, for the
    angular order [l]. *)
Lemma C_column_prefix (xi : float) (N l : nat) (CC0 : table2) (k : nat) :
  (k <= N)%nat ->
  let alpha := 2 * INR l + 3 / 2 in
  let T := fold_left (fun CC n => _C_body xi N l n CC) (seq 0 k) CC0 in
  (forall n' l', l' <> l -> T n' l' = CC0 n' l') /\
  (forall n', (N <= n')%nat -> T n' l = CC0 n' l) /\
  (forall i, (i < N)%nat -> (i < k)%nat \/ (2 <= k /\ i <= k)%nat ->
             T i l = gegenbauer alpha xi i).
Proof.
  intros Hk alpha. induction k as [|k IH]; cbn zeta.
  - cbn [seq fold_left]. repeat split; intros; try reflexivity. lia.
  - specialize (IH ltac:(lia)). cbn zeta in IH. destruct IH as [Hcol [Hrow Hval]].
    rewrite seq_S, fold_left_app. cbn [fold_left Nat.add].
    set (T := fold_left (fun CC n => _C_body xi N l n CC) (seq 0 k) CC0) in *.
    split; [|split].
    + intros n' l' Hl. rewrite C_body_other_column by exact Hl. now apply Hcol.
    + intros n' Hn. rewrite C_body_above by lia. now apply Hrow.
    + intros i Hi Hcase.
      destruct k as [|[|k]].
      * assert (i = 0%nat) by lia. subst i.
        unfold _C_body, upd2. cbn [Nat.eqb andb].
        rewrite Nat.eqb_refl. reflexivity.
      * assert (Hi' : (i <= 2)%nat) by lia.
        assert (H0 : T 0%nat l = gegenbauer alpha xi 0) by (apply Hval; lia).
        unfold _C_body.
        change (1 =? 0)%nat with false. change (1 =? 1)%nat with true.
        cbv iota zeta.
        destruct (Nat.eqb_spec (1 + 1) N) as [E2|E2]; cbn [negb]; unfold upd2.
        -- destruct i as [|[|i]]; try lia.
           ++ exact H0.
           ++ change (1 =? 1)%nat with true. rewrite Nat.eqb_refl. reflexivity.
        -- destruct i as [|[|[|i]]]; try lia.
           ++ exact H0.
           ++ change (1 =? 1 + 1)%nat with false.
              change (1 =? 1)%nat with true. rewrite Nat.eqb_refl. reflexivity.
           ++ change (1 + 1)%nat with 2%nat. change (1 - 1)%nat with 0%nat.
              change (2 =? 2)%nat with true. change (1 =? 1)%nat with true.
              change (0 =? 1)%nat with false.
              rewrite !Nat.eqb_refl. cbn [andb].
              rewrite gegenbauer_step. fold alpha. rewrite H0. reflexivity.
      * assert (Hk1 : T (S (S k)) l = gegenbauer alpha xi (S (S k)))
          by (apply Hval; lia).
        assert (Hk0 : T (S k) l = gegenbauer alpha xi (S k))
          by (apply Hval; lia).
        destruct (Nat.eq_dec i (S (S k) + 1)) as [Ei|Ei].
        -- subst i. unfold _C_body, upd2. cbn [Nat.eqb].
           replace (S (S k) + 1 =? N)%nat with false
             by (symmetry; apply Nat.eqb_neq; lia).
           cbn [negb]. rewrite !Nat.eqb_refl. cbn [andb].
           replace (S (S k) + 1)%nat with (S (S (S k))) by lia.
           rewrite gegenbauer_step. fold alpha.
           replace (S (S k) - 1)%nat with (S k) by lia.
           rewrite Hk1, Hk0. reflexivity.
        -- destruct (Nat.eq_dec i (S (S k))) as [Ei'|Ei'].
           ++ subst i. unfold _C_body, upd2. cbn [Nat.eqb].
              destruct (negb (S (S k) + 1 =? N)%nat).
              ** replace (S (S k) =? S (S k) + 1)%nat with false
                   by (symmetry; apply Nat.eqb_neq; lia).
                 cbn [andb]. exact Hk1.
              ** exact Hk1.
           ++ rewrite C_body_other_row by lia. apply Hval; lia.
Qed.

Lemma C_column (xi : float) (N l : nat) (CC0 : table2) :
  let T := fold_left (fun CC n => _C_body xi N l n CC) (seq 0 N) CC0 in
  (forall n' l', l' <> l -> T n' l' = CC0 n' l') /\
  (forall n', (N <= n')%nat -> T n' l = CC0 n' l) /\
  (forall i, (i < N)%nat -> T i l = gegenbauer (2 * INR l + 3 / 2) xi i).
Proof.
  cbn zeta.
  destruct (C_column_prefix xi N l CC0 N (Nat.le_refl N)) as [H1 [H2 H3]].
  split; [exact H1|]. split; [exact H2|].
  intros i Hi. apply H3; [exact Hi|].
  destruct N as [|[|N]]; lia.
Qed.

Lemma C_columns (xi : float) (N : nat) (ls : list nat) (CC0 : table2) (n l : nat) :
  NoDup ls ->
  fold_left (fun CC l => fold_left (fun CC n => _C_body xi N l n CC) (seq 0 N) CC)
    ls CC0 n l
  = if existsb (Nat.eqb l) ls && (n <? N)%nat
    then gegenbauer (2 * INR l + 3 / 2) xi n
    else CC0 n l.
Proof.
  intros Hnd. revert CC0. induction Hnd as [|l0 ls Hnotin _ IH]; intros CC0.
  - reflexivity.
  - cbn [fold_left existsb]. rewrite IH.
    destruct (C_column xi N l0 CC0) as [Hcol [Hrow Hval]]. cbn zeta in *.
    destruct (existsb (Nat.eqb l) ls) eqn:E; cbn [andb orb].
    + rewrite orb_true_r. cbn [andb].
      destruct (n <? N)%nat; [reflexivity|].
      apply Hcol. intros ->. apply Hnotin.
      apply existsb_exists in E. destruct E as [y [Hy Ey]].
      apply Nat.eqb_eq in Ey. now subst.
    + rewrite orb_false_r. destruct (Nat.eqb_spec l l0) as [->|Hne]; cbn [andb].
      * destruct (Nat.ltb_spec n N); [now apply Hval | now apply Hrow].
      * now apply Hcol.
Qed.

(** X28.  The table built by [_C(xi,L,N)] holds the Gegenbauer
    polynomials of the three-term recurrence: at every radial order
    [n < N] and angular order [l < L] its entry is [C_n] for
    [alpha = 2l + 3/2] at [xi], and it is 0 everywhere else. *)
Theorem C_table_is_gegenbauer (xi : float) (L N n l : nat) :
  _C xi L N n l
  = if (l <? L)%nat && (n <? N)%nat
    then gegenbauer (2 * INR l + 3 / 2) xi n
    else 0.
Proof.
  unfold _C. rewrite C_columns by apply seq_NoDup.
  now rewrite existsb_eqb_seq.
Qed.

Section Monopole.

Variable cyl_to_spher : float -> float -> float -> float * float * float.
Variable lpmn : nat -> nat -> float -> table2.

Lemma fold_coeffs (g : nat -> float) (ns : list nat) (T : table3) (n l m : nat) :
  fold_left (fun (A : table3) k =>
    fun n' l' m' =>
      if (n' =? k)%nat && (l' =? 0)%nat && (m' =? 0)%nat
      then g k else A n' l' m') ns T n l m
  = if existsb (Nat.eqb n) ns && (l =? 0)%nat && (m =? 0)%nat
    then g n else T n l m.
Proof.
  revert T. induction ns as [|k ns IH]; intros T; cbn [fold_left existsb].
  - reflexivity.
  - rewrite IH.
    destruct (existsb (Nat.eqb n) ns), (Nat.eqb_spec n k) as [->|Hne],
      (l =? 0)%nat, (m =? 0)%nat; cbn [andb orb]; reflexivity.
Qed.

Variable eval_gegenbauer : nat -> float -> float -> float.
Variable quad : (float -> float) -> float -> float -> float.

(** X30.  [compute_coeffs_spherical(dens,N)] returns two [N x 1 x 1]
    arrays: the sine array is zero, the cosine array holds at each radial
    order [n < N] the factor [K_n] times the quadrature of the integrand
    of that order over [-1 <= xi <= 1].  An expansion built from them has
    one angular order, so its potential and its density are always
    evaluated. *)
Theorem spherical_fit_is_evaluable (dens : float -> float) (N : nat)
  (amp a R z phi t : float) :
  let Acos := fst (compute_coeffs_spherical eval_gegenbauer quad dens N) in
  let Asin := snd (compute_coeffs_spherical eval_gegenbauer quad dens N) in
  shape Acos = (N, 1%nat, 1%nat) /\ shape Asin = (N, 1%nat, 1%nat) /\
  (forall n l m, item Asin n l m = 0) /\
  (forall n l m,
     item Acos n l m
     = if (n <? N)%nat && (l =? 0)%nat && (m =? 0)%nat
       then K_spherical n * quad (integrand eval_gegenbauer dens n) (-1) 1
       else 0) /\
  _evaluate cyl_to_spher lpmn (init amp Acos Asin a) R z phi t
  = Ok (spec_sum cyl_to_spher lpmn (init amp Acos Asin a) _phiTilde R z phi) /\
  _dens cyl_to_spher lpmn (init amp Acos Asin a) R z phi t
  = Ok (spec_sum cyl_to_spher lpmn (init amp Acos Asin a) _rhoTilde R z phi).
Proof.
  intros Acos Asin.
  split; [reflexivity|]. split; [reflexivity|]. split; [reflexivity|].
  split.
  - intros n l m. subst Acos. unfold compute_coeffs_spherical.
    cbn [fst item]. rewrite fold_coeffs, existsb_eqb_seq. reflexivity.
  - apply (scf_single_angular_order cyl_to_spher lpmn (init amp Acos Asin a)
             N 1 1 R z phi t); try reflexivity; lia.
Qed.

End Monopole.

End SCFTables.
